(** * Shard routing and reparenting of a sharded database cluster

    A shallow embedding of [py/vtdb/keyspace.py] (the keyspace model that maps
    a keyspace id to the shard serving it) and of the reparenting protocol the
    integration script [test/reparent.py] exercises, with the properties the
    specification states about them. *)

From Stdlib Require Import ZArith String Ascii List Bool Lia.
From stdpp Require Import base option list gmap strings.

Set Warnings "-register-all".
Local Open Scope string_scope.
Local Open Scope Z_scope.

(** * Python values, exceptions and results *)

Module Py.

(** The values a decoded topology record is built from.  Strings are Python 2
    byte strings; dictionaries are keyed by strings, as decoded records are. *)
Inductive value : Type :=
| VNone
| VBool (b : bool)
| VInt (z : Z)
| VStr (s : string)
| VList (l : list value)
| VDict (d : gmap string value).

(** What the three [ValueError]s of the module say. *)
Inductive value_error : Type :=
| db_type_is_not_set
| keyspace_id_is_not_set
| cannot_find_shard (keyspace_id shards : value).

(** Exceptions.  [OperationalError] carries its positional arguments and, when
    it wraps another exception, that exception as last argument.
    [OtherException] stands for any further subclass of [Exception] a
    collaborator may raise, [SystemExiting] for the exceptions below
    [BaseException] only (KeyboardInterrupt, SystemExit). *)
Inductive exn : Type :=
| ValueError (m : value_error)
| KeyError (k : value)
| IndexError
| TypeError
| AttributeError
| StructError
| OperationalError (args : list value) (cause : option exn)
| OtherException (name : string)
| SystemExiting (name : string).

Inductive result (A : Type) : Type :=
| OK (a : A)
| Raise (e : exn).
Arguments OK {A} a.
Arguments Raise {A} e.

#[export] Instance result_ret : MRet result := fun A a => OK a.
#[export] Instance result_bind : MBind result := fun A B f m =>
  match m with
  | OK a => f a
  | Raise e => Raise e
  end.

(** [isinstance(e, Exception)] and [isinstance(e, OperationalError)]. *)
Definition is_Exception (e : exn) : bool :=
  match e with
  | SystemExiting _ => false
  | _ => true
  end.

Definition is_OperationalError (e : exn) : bool :=
  match e with
  | OperationalError _ _ => true
  | _ => false
  end.

Definition is_KeyError (e : exn) : bool :=
  match e with
  | KeyError _ => true
  | _ => false
  end.

(** Truth value of an object: [None], [False], zero and the empty containers
    are false. *)
Definition truthy (v : value) : bool :=
  match v with
  | VNone => false
  | VBool b => b
  | VInt z => negb (z =? 0)
  | VStr s => negb (s =? "")%string
  | VList l => negb (Nat.eqb (length l) 0)
  | VDict d => negb (Nat.eqb (size d) 0)
  end.

(** Index [i] of a sequence of length [n], negative indices counting from the
    end. *)
Definition seq_index (n : nat) (i : Z) : option nat :=
  if (0 <=? i) && (i <? Z.of_nat n) then Some (Z.to_nat i)
  else if (- Z.of_nat n <=? i) && (i <? 0) then Some (Z.to_nat (Z.of_nat n + i))
  else None.

Definition index_of (k : value) : option Z :=
  match k with
  | VInt i => Some i
  | VBool b => Some (Z.b2z b)
  | _ => None
  end.

Definition char_at (s : string) (i : nat) : option value :=
  match String.get i s with
  | Some c => Some (VStr (String c EmptyString))
  | None => None
  end.

(** [c[k]]. *)
Definition getitem (c k : value) : result value :=
  match c with
  | VDict d =>
      match k with
      | VStr s =>
          match d !! s with
          | Some v => OK v
          | None => Raise (KeyError k)
          end
      | VList _ | VDict _ => Raise TypeError
      | _ => Raise (KeyError k)
      end
  | VList l =>
      match index_of k with
      | Some i =>
          match seq_index (length l) i with
          | Some n =>
              match l !! n with
              | Some v => OK v
              | None => Raise IndexError
              end
          | None => Raise IndexError
          end
      | None => Raise TypeError
      end
  | VStr s =>
      match index_of k with
      | Some i =>
          match seq_index (String.length s) i with
          | Some n =>
              match char_at s n with
              | Some v => OK v
              | None => Raise IndexError
              end
          | None => Raise IndexError
          end
      | None => Raise TypeError
      end
  | _ => Raise TypeError
  end.

(** [d.get(k, dflt)] with a string key: only dictionaries have the
    method. *)
Definition get (d : value) (k : string) (dflt : value) : result value :=
  match d with
  | VDict m => OK (default dflt (m !! k))
  | _ => Raise AttributeError
  end.

(** [len(c)]. *)
Definition len (c : value) : result value :=
  match c with
  | VStr s => OK (VInt (Z.of_nat (String.length s)))
  | VList l => OK (VInt (Z.of_nat (length l)))
  | VDict d => OK (VInt (Z.of_nat (size d)))
  | _ => Raise TypeError
  end.

Fixpoint chars (s : string) : list value :=
  match s with
  | EmptyString => []
  | String c s' => VStr (String c EmptyString) :: chars s'
  end.

(** The elements a [for] loop visits.  A dictionary yields its keys, in an
    order the language leaves open; the map's own order stands for it. *)
Definition iter (c : value) : result (list value) :=
  match c with
  | VList l => OK l
  | VStr s => OK (chars s)
  | VDict d => OK (VStr <$> (map_to_list d).*1)
  | _ => Raise TypeError
  end.

(** Comparisons against a byte string.  Python 2 orders objects of different
    types: [None] first, then numbers, then the others by type name, so that
    every value that is not a string is below every string. *)
Definition le_str (v : value) (s : string) : bool :=
  match v with
  | VStr a => (a <=? s)%string
  | _ => true
  end.

Definition str_lt (s : string) (v : value) : bool :=
  match v with
  | VStr b => (s <? b)%string
  | _ => false
  end.

Definition eq_str (v : value) (s : string) : bool :=
  match v with
  | VStr a => (a =? s)%string
  | _ => false
  end.

(** [struct.Struct('!Q').pack]: eight bytes, most significant first. *)
Definition byte_at (z : Z) (i : Z) : ascii :=
  ascii_of_N (Z.to_N (Z.land (Z.shiftr z (8 * i)) 255)).

Definition pack_Q (z : Z) : string :=
  String (byte_at z 7) (String (byte_at z 6) (String (byte_at z 5)
  (String (byte_at z 4) (String (byte_at z 3) (String (byte_at z 2)
  (String (byte_at z 1) (String (byte_at z 0) EmptyString))))))).

(** Reading a byte string as a number, most significant byte first. *)
Fixpoint unpack_from (acc : Z) (s : string) : Z :=
  match s with
  | EmptyString => acc
  | String c s' => unpack_from (acc * 256 + Z.of_N (N_of_ascii c)) s'
  end.

Definition unpack_Q (s : string) : Z := unpack_from 0 s.

Definition struct_pack_Q (v : value) : result string :=
  match index_of v with
  | Some z =>
      if (0 <=? z) && (z <? 2 ^ 64) then OK (pack_Q z) else Raise StructError
  | None => Raise StructError
  end.

End Py.

Import Py.

(** * py/vtdb/keyspace.py *)

Definition pack_keyspace_id : value -> result string := struct_pack_Q.

(** The SrvKeyspace object of the topology server. *)
Record Keyspace : Type := mkKeyspace {
  name : value;
  partitions : value;
  sharding_col_name : value;
  sharding_col_type : value;
  served_from : value
}.

Section KeyspaceModel.

(** [keyrange_constants.MAX_KEY] and [keyrange_constants.KIT_UNSET]: the module
    that defines them is not part of the sources read here, so the development
    is parametric in them. *)
Variable MAX_KEY : string.
Variable KIT_UNSET : value.

(** [Keyspace.__init__(self, name, data)]. *)
Definition Keyspace_init (name data : value) : result Keyspace :=
  partitions ← get data "Partitions" (VDict ∅);
  sharding_col_name ← get data "ShardingColumnName" (VStr "");
  sharding_col_type ← get data "ShardingColumnType" KIT_UNSET;
  served_from ← get data "ServedFrom" VNone;
  mret (mkKeyspace name partitions sharding_col_name sharding_col_type
          served_from).

Definition get_shards (self : Keyspace) (db_type : value) : result value :=
  if negb (truthy db_type) then Raise (ValueError db_type_is_not_set)
  else
    match getitem (partitions self) db_type ≫= (fun p => getitem p (VStr "ShardReferences")) with
    | OK shards => OK shards
    | Raise e => if is_KeyError e then OK (VList []) else Raise e
    end.

Definition get_shard_count (self : Keyspace) (db_type : value) : result value :=
  if negb (truthy db_type) then Raise (ValueError db_type_is_not_set)
  else
    shards ← get_shards self db_type;
    len shards.

Fixpoint shard_names (shards : list value) : result (list value) :=
  match shards with
  | [] => OK []
  | shard :: rest =>
      n ← getitem shard (VStr "Name");
      ns ← shard_names rest;
      mret (n :: ns)
  end.

Definition get_shard_names (self : Keyspace) (db_type : value) : result value :=
  if negb (truthy db_type) then Raise (ValueError db_type_is_not_set)
  else
    shards ← get_shards self db_type;
    l ← iter shards;
    ns ← shard_names l;
    mret (VList ns).

Definition _shard_contain_kid (pkid : string) (start end_ : value) : bool :=
  le_str start pkid && (eq_str end_ MAX_KEY || str_lt pkid end_).

(** The [for shard in shards] loop: [Some n] when the loop returns [n],
    [None] when it runs to its end. *)
Fixpoint scan_shards (pkid : string) (shards : list value) : result (option value) :=
  match shards with
  | [] => OK None
  | shard :: rest =>
      start ← getitem shard (VStr "KeyRange") ≫= (fun kr => getitem kr (VStr "Start"));
      end_ ← getitem shard (VStr "KeyRange") ≫= (fun kr => getitem kr (VStr "End"));
      if _shard_contain_kid pkid start end_
      then n ← getitem shard (VStr "Name"); mret (Some n)
      else scan_shards pkid rest
  end.

Definition keyspace_id_to_shard_name_for_db_type
    (self : Keyspace) (keyspace_id db_type : value) : result value :=
  if negb (truthy keyspace_id) then Raise (ValueError keyspace_id_is_not_set)
  else if negb (truthy db_type) then Raise (ValueError db_type_is_not_set)
  else
    pkid ← pack_keyspace_id keyspace_id;
    shards ← get_shards self db_type;
    l ← iter shards;
    found ← scan_shards pkid l;
    match found with
    | Some n => OK n
    | None => Raise (ValueError (cannot_find_shard keyspace_id shards))
    end.

(** The topology client, as far as [read_keyspace] uses it:
    [topo_client.get_srv_keyspace(cell, keyspace_name)]. *)
Definition TopoClient : Type := value -> value -> result value.

(** The body of the [try] block of [read_keyspace]. *)
Definition read_keyspace_body (topo_client : TopoClient) (keyspace_name : value)
    : result Keyspace :=
  data ← topo_client (VStr "local") keyspace_name;
  if negb (truthy data)
  then Raise (OperationalError [VStr "invalid empty keyspace"; keyspace_name] None)
  else Keyspace_init keyspace_name data.

Definition read_keyspace (topo_client : TopoClient) (keyspace_name : value)
    : result Keyspace :=
  match read_keyspace_body topo_client keyspace_name with
  | OK k => OK k
  | Raise e =>
      if is_OperationalError e then Raise e
      else if is_Exception e
      then Raise (OperationalError [VStr "invalid keyspace"; keyspace_name] (Some e))
      else Raise e
  end.

End KeyspaceModel.

(** * The partitioning as the data model describes it *)

(** A shard reference: shard name and the two ends of its key range, byte
    strings compared lexicographically. *)
Record ShardReference : Type := mkShardReference {
  Name : string;
  Start : string;
  End : string
}.

(** The record a shard reference is stored as under ['ShardReferences']. *)
Definition shard_reference (s : ShardReference) : value :=
  VDict {[ "Name" := VStr (Name s);
           "KeyRange" := VDict {[ "Start" := VStr (Start s);
                                  "End" := VStr (End s) ]} ]}.

(** The least byte string: the start of the key space. *)
Definition MIN_KEY : string := "".

Section Partitioning.

Variable MAX_KEY : string.

(** The range of [s] contains the packed key, as [_shard_contain_kid] decides
    it. *)
Definition contains (pkid : string) (s : ShardReference) : bool :=
  _shard_contain_kid MAX_KEY pkid (VStr (Start s)) (VStr (End s)).

(** The same test in the words of the data model, on the byte strings alone:
    the range [Start, End) holds [pkid] when [Start <= pkid] and, unless [End]
    is the unbounded sentinel, [pkid < End], in lexicographic order. *)
Definition in_range (pkid : string) (s : ShardReference) : bool :=
  (Start s <=? pkid)%string &&
  ((End s =? MAX_KEY)%string || (pkid <? End s)%string).

(** The ranges form a chain from [lo]: each starts where the previous one
    ends, every range but the last is bounded and not empty, and the last one
    ends at the sentinel. *)
Fixpoint contiguous_from (lo : string) (refs : list ShardReference) : bool :=
  match refs with
  | [] => false
  | s :: rest =>
      (Start s =? lo)%string &&
      match rest with
      | [] => (End s =? MAX_KEY)%string
      | _ :: _ =>
          (lo <? End s)%string && negb (End s =? MAX_KEY)%string &&
          contiguous_from (End s) rest
      end
  end.

(** Well-formed partitioning of one role: contiguous, without overlap, from
    the least key to the unbounded sentinel. *)
Definition well_formed (refs : list ShardReference) : bool :=
  contiguous_from MIN_KEY refs.

End Partitioning.

(** * The reparenting protocol *)

Module Reparent.

(** Modelled from the spec: the data model of section 3, cut down to one
    shard.  The coordinator and the node agents are not among the sources;
    only the script that drives them, [test/reparent.py], is. *)
Inductive Role : Type := master | replica | spare | unknown | scrapped.

#[export] Instance Role_eq_dec : EqDecision Role.
Proof. solve_decision. Defined.

(** Modelled from the spec: a tablet is identified by its cell and numeric
    uid (section 3). *)
Definition TabletAlias : Type := string * N.

(** Modelled from the spec: a tablet, with the role of its topology record and
    the state of the node behind it: whether its agent and database answer,
    whether it accepts writes, and which tablet it replicates from. *)
Record Tablet : Type := mkTablet {
  role : Role;
  reachable : bool;
  writable : bool;
  replication_target : option TabletAlias
}.

(** Modelled from the spec: the committed shard record (its master reference),
    the master entry of the serving graph derived from it, and the tablets
    assigned to the shard. *)
Record Cluster : Type := mkCluster {
  shard_master : option TabletAlias;
  serving_master : option TabletAlias;
  tablets : gmap TabletAlias Tablet
}.

(** Field updates. *)
Definition set_role (r : Role) (t : Tablet) : Tablet :=
  mkTablet r (reachable t) (writable t) (replication_target t).

Definition set_reachable (b : bool) (t : Tablet) : Tablet :=
  mkTablet (role t) b (writable t) (replication_target t).

Definition with_tablets (c : Cluster) (ts : gmap TabletAlias Tablet) : Cluster :=
  mkCluster (shard_master c) (serving_master c) ts.

(** Modelled from the spec: a scrapped tablet is permanently decommissioned
    (section 3) and no longer takes part in the shard. *)
Definition in_shard (t : Tablet) : bool :=
  bool_decide (role t ≠ scrapped).

(** ** NodeAgentClient

    The calls of section 6 that the reparent operations issue.  A call to a
    node that does not answer fails ([None]); a timeout counts as a failure. *)

(** Modelled from the spec: a demoted master stops accepting writes. *)
Definition demoted (t : Tablet) : Tablet :=
  mkTablet (role t) (reachable t) false (replication_target t).

(** Modelled from the spec: a promoted tablet stops its own replication and
    becomes writable. *)
Definition promoted (t : Tablet) : Tablet :=
  mkTablet (role t) (reachable t) true None.

(** Modelled from the spec: a rewired tablet replicates from the new
    master. *)
Definition rewired (new : TabletAlias) (t : Tablet) : Tablet :=
  mkTablet (role t) (reachable t) (writable t) (Some new).

(** Modelled from the spec: [demote_master(tablet, timeout)]. *)
Definition demote_master (t : Tablet) : option Tablet :=
  if reachable t then Some (demoted t) else None.

(** Modelled from the spec: [promote_slave(tablet)]. *)
Definition promote_slave (t : Tablet) : option Tablet :=
  if reachable t then Some (promoted t) else None.

(** Modelled from the spec: [set_master(tablet, new_master_addr, ...)]. *)
Definition set_master (new : TabletAlias) (t : Tablet) : option Tablet :=
  if reachable t then Some (rewired new t) else None.

(** ** What an operation reports

    The script observes a command through its exit status and its error
    output. *)

(** Modelled from the spec: the failure kinds of section 7 that a reparent
    reports, which are also the messages the script looks for in the error
    output.  [NoCurrentMaster] and [PromoteFailed] stand for the two aborts
    the spec leaves without a name: a shard without master, and a new master
    that does not answer. *)
Inductive Diagnostic : Type :=
| NoOpReparent
| NoCurrentMaster
| DemoteMasterFailed (old : TabletAlias)
| PromoteFailed (new : TabletAlias)
| SetMasterError (t : TabletAlias).

#[export] Instance Diagnostic_eq_dec : EqDecision Diagnostic.
Proof. solve_decision. Defined.

(** Modelled from the spec: what an operation reports (section 4.2, step 5,
    and section 7): whether the mastership change succeeded overall, the
    replicas whose rewiring failed, and the diagnostics printed. *)
Record Report : Type := mkReport {
  success : bool;
  failed_replicas : list TabletAlias;
  stderr : list Diagnostic
}.

(** Modelled from the spec: an operation that aborts reports the one failure
    that stopped it. *)
Definition aborted (d : Diagnostic) : Report := mkReport false [] [d].

(** Modelled from the spec: the exit status of the command (section 6): it is
    non-zero on any failure kind of section 7, the per-replica failures that
    go with an overall success among them. *)
Definition exit_ok (r : Report) : bool :=
  success r && bool_decide (failed_replicas r = []).

(** ** ReparentCoordinator *)

(** Modelled from the spec: step 4, the tablets to rewire are those of the
    shard outside [skip]. *)
Definition to_rewire (skip : list TabletAlias) (a : TabletAlias) (t : Tablet) : bool :=
  in_shard t && bool_decide (a ∉ skip).

(** Modelled from the spec: each rewire is attempted on its own; a tablet
    whose call fails keeps its state and does not stop the others. *)
Definition rewire_one (new : TabletAlias) (skip : list TabletAlias)
    (a : TabletAlias) (t : Tablet) : Tablet :=
  if to_rewire skip a t then default t (set_master new t) else t.

(** Modelled from the spec: the fan-out of step 4 over the tablets. *)
Definition rewire (new : TabletAlias) (skip : list TabletAlias)
    (ts : gmap TabletAlias Tablet) : gmap TabletAlias Tablet :=
  map_imap (fun a t => Some (rewire_one new skip a t)) ts.

(** Modelled from the spec: the tablets whose rewire failed, recorded for the
    report. *)
Definition rewire_failures (skip : list TabletAlias)
    (ts : gmap TabletAlias Tablet) : list TabletAlias :=
  (map_to_list
     (filter (fun p => to_rewire skip p.1 p.2 && negb (reachable p.2) = true) ts)).*1.

(** Modelled from the spec: step 5, the shard record names [new], the serving
    graph is rebuilt from it, and the tablet records follow: [new] takes the
    master role and the old master leaves it. *)
Definition commit (old : option TabletAlias) (old_role : Role) (new : TabletAlias)
    (ts : gmap TabletAlias Tablet) : Cluster :=
  let ts := match old with
            | Some o => alter (set_role old_role) o ts
            | None => ts
            end in
  mkCluster (Some new) (Some new) (alter (set_role master) new ts).

(** Modelled from the spec: step 5, an operation that went through the
    rewiring step reports overall success for the mastership change and
    enumerates the replicas whose rewire failed, with a diagnostic for
    each. *)
Definition rewire_report (failed : list TabletAlias) : Report :=
  mkReport true failed (SetMasterError <$> failed).

(** Modelled from the spec: the planned reparent of section 4.2, steps 1 to 5.
    Step 4 rewires every tablet of the shard except the old and the new
    master.  The record of the demoted master leaves the master role, as the
    invariant of section 3 asks, for no serving role ([spare]): section 8 has
    it demoted and not promoted to any role.  Replication positions are left
    out. *)
Definition planned_reparent (new : TabletAlias) (c : Cluster) : Cluster * Report :=
  match shard_master c with
  | None => (c, aborted NoCurrentMaster)
  | Some old =>
      if bool_decide (new = old) then (c, aborted NoOpReparent)
      else
        match tablets c !! old ≫= demote_master with
        | None => (c, aborted (DemoteMasterFailed old))
        | Some old' =>
            let ts1 := <[old := old']> (tablets c) in
            match ts1 !! new ≫= promote_slave with
            | None => (with_tablets c ts1, aborted (PromoteFailed new))
            | Some new' =>
                let ts2 := <[new := new']> ts1 in
                (commit (Some old) spare new (rewire new [new; old] ts2),
                 rewire_report (rewire_failures [new; old] ts2))
            end
        end
  end.

(** Modelled from the spec: the emergency reparent of section 4.2.  The old
    master is never contacted; its record is marked scrapped as part of the
    operation.  Replication positions are left out. *)
Definition emergency_reparent (new : TabletAlias) (c : Cluster) : Cluster * Report :=
  if bool_decide (shard_master c = Some new) then (c, aborted NoOpReparent)
  else
    match tablets c !! new ≫= promote_slave with
    | None => (c, aborted (PromoteFailed new))
    | Some new' =>
        let skip := new :: option_list (shard_master c) in
        let ts2 := <[new := new']> (tablets c) in
        (commit (shard_master c) scrapped new (rewire new skip ts2),
         rewire_report (rewire_failures skip ts2))
    end.

(** Modelled from the spec: the invariant of section 3, at most one tablet
    holds the master role, the one the shard record names. *)
Definition master_invariant (c : Cluster) : Prop :=
  ∀ a t, tablets c !! a = Some t → role t = master → shard_master c = Some a.

(** ** test/reparent.py

    The steps of the script that the properties below rest on, run against
    the model. *)

(** The four tablets of the script; 41983 is named [test_nj-0000041983] in
    the error message the script expects. *)

Definition tablet_62344 : TabletAlias := ("test_nj", 62344%N).
Definition tablet_62044 : TabletAlias := ("test_nj", 62044%N).
Definition tablet_41983 : TabletAlias := ("test_nj", 41983%N).
Definition tablet_31981 : TabletAlias := ("test_ny", 31981%N).

(** [utils.run_vtctl]: the call goes through when the command exits as
    expected. *)
Definition run_vtctl (expect_fail : bool) (r : Report) : bool :=
  if expect_fail then negb (exit_ok r) else exit_ok r.

(** [tablet.kill_vttablet()] and [tablet.shutdown_mysql()]: the node stops
    answering. *)
Definition kill_vttablet (a : TabletAlias) (c : Cluster) : Cluster :=
  with_tablets c (alter (set_reachable false) a (tablets c)).

Definition shutdown_mysql (a : TabletAlias) (c : Cluster) : Cluster :=
  with_tablets c (alter (set_reachable false) a (tablets c)).

(** [tablet.start_mysql()]: the node answers again. *)
Definition start_mysql (a : TabletAlias) (c : Cluster) : Cluster :=
  with_tablets c (alter (set_reachable true) a (tablets c)).

(** [tablet.scrap(force=True)]: the record is scrapped in the topology
    without contacting the node. *)
Definition scrap (a : TabletAlias) (c : Cluster) : Cluster :=
  with_tablets c (alter (set_role scrapped) a (tablets c)).

(** [_check_db_addr(shard, 'master', tablet.port)]: the serving graph has the
    tablet as master end point. *)
Definition _check_db_addr (c : Cluster) (a : TabletAlias) : bool :=
  bool_decide (serving_master c = Some a).

(** [_populate_vt_insert_test(m, i)] then [_check_vt_insert_test(t, i)]: the
    row written on [m] arrives on [t], which is the case when [t] answers and
    replicates from [m]. *)
Definition _check_vt_insert_test (c : Cluster) (m t : TabletAlias) : bool :=
  match tablets c !! t with
  | Some x => reachable x && bool_decide (replication_target x = Some m)
  | None => false
  end.

(** ['DemoteMaster failed' in stderr]. *)
Definition DemoteMaster_failed_in (r : Report) : bool :=
  existsb (fun d => match d with DemoteMasterFailed _ => true | _ => false end)
    (stderr r).

(** ['TabletManager.SetMaster on <alias> error' in stderr]. *)
Definition SetMaster_error_in (a : TabletAlias) (r : Report) : bool :=
  bool_decide (SetMasterError a ∈ stderr r).

(** The shard after InitShardMaster on 62344, the other three tablets
    replicating from it with the given roles. *)
Definition init_shard_master (r62044 r41983 r31981 : Role) : Cluster :=
  mkCluster (Some tablet_62344) (Some tablet_62344)
    (<[tablet_62344 := mkTablet master true true None]>
     (<[tablet_62044 := mkTablet r62044 true false (Some tablet_62344)]>
      (<[tablet_41983 := mkTablet r41983 true false (Some tablet_62344)]>
       (<[tablet_31981 := mkTablet r31981 true false (Some tablet_62344)]> ∅)))).

(** The shard of [test_reparent_down_master] once the master is made
    unavailable, the shard of [test_reparent_with_down_slave] once the
    database of the spare tablet is shut down, and the same shard with 41983
    a replica instead of a spare. *)
Definition down_replica : Cluster :=
  shutdown_mysql tablet_41983 (init_shard_master replica replica replica).

Definition down_master : Cluster :=
  shutdown_mysql tablet_62344
    (kill_vttablet tablet_62344 (init_shard_master replica replica replica)).

Definition down_slave : Cluster :=
  shutdown_mysql tablet_41983 (init_shard_master replica spare replica).

(** [test_reparent_down_master], from the point where the master is made
    unavailable.  The ScrapTablet call that is only expected to fail and the
    calls to [validate_topology] are left out. *)
Definition test_reparent_down_master : bool :=
  let c := down_master in
  _check_db_addr c tablet_62344 &&
  let (c, r) := planned_reparent tablet_62044 c in
  run_vtctl true r && DemoteMaster_failed_in r &&
  let c := scrap tablet_62344 c in
  let (c, r) := emergency_reparent tablet_62044 c in
  run_vtctl false r &&
  _check_db_addr c tablet_62044 &&
  _check_vt_insert_test c tablet_62044 tablet_41983 &&
  _check_vt_insert_test c tablet_62044 tablet_31981.

(** [test_reparent_with_down_slave], up to the check that the replica which
    answers follows the new master.  The script goes on to read the row back
    from the old master; step 4 of the spec leaves the old master out of the
    rewiring, so that check is not part of what is modelled. *)
Definition test_reparent_with_down_slave : bool :=
  let c := down_slave in
  let (c, r) := planned_reparent tablet_62044 c in
  run_vtctl true r && SetMaster_error_in tablet_41983 r &&
  _check_vt_insert_test c tablet_62044 tablet_31981.

End Reparent.

(** * Sample data *)

(** A keyspace split in two at 0x80 for the master role, with the sentinel of
    [keyrange_constants] (the empty string) as upper end. *)
Definition example_refs : list ShardReference :=
  [ mkShardReference "-80" "" (String "128"%char "");
    mkShardReference "80-" (String "128"%char "") "" ].

Definition example_keyspace : Keyspace :=
  mkKeyspace (VStr "test_keyspace")
    (VDict {[ "master" :=
                VDict {[ "ShardReferences" := VList (shard_reference <$> example_refs) ]};
              "replica" := VDict ∅ ]})
    (VStr "keyspace_id") (VStr "uint64") VNone.

(** * Key range bounds as numbers *)

(** [n] zero bytes. *)
Fixpoint zeros (n : nat) : string :=
  match n with
  | O => EmptyString
  | S n' => String "000"%char (zeros n')
  end.

(** A bound of a key range, filled up with zero bytes to the eight bytes of a
    packed key, and the number it then spells. *)
Definition pad8 (s : string) : string :=
  String.append s (zeros (8 - String.length s)).

Definition bound_key (s : string) : Z := unpack_Q (pad8 s).

(** The keyspace with another record of partitions. *)
Definition with_partitions (ks : Keyspace) (p : value) : Keyspace :=
  mkKeyspace (name ks) p (sharding_col_name ks) (sharding_col_type ks)
    (served_from ks).

(** The sample keyspace with any list stored as the shard references of the
    master role, and a topology client that serves the record of the sample
    keyspace. *)
Definition example_keyspace_of (shards : list value) : Keyspace :=
  with_partitions example_keyspace
    (VDict {[ "master" := VDict {[ "ShardReferences" := VList shards ]} ]}).

Definition example_record : gmap string value :=
  {[ "Partitions" :=
       VDict {[ "master" :=
                  VDict {[ "ShardReferences" :=
                             VList (shard_reference <$> example_refs) ]} ]};
     "ShardingColumnName" := VStr "keyspace_id" ]}.

Definition example_topo_client : TopoClient :=
  fun _ _ => OK (VDict example_record).

(** * Lexicographic order on byte strings *)

Section StringOrder.

Lemma ascii_compare_refl (a : ascii) : Ascii.compare a a = Eq.
Proof. unfold Ascii.compare. apply N.compare_refl. Qed.

Lemma ascii_compare_lt_trans (a b c : ascii) :
  Ascii.compare a b = Lt → Ascii.compare b c = Lt → Ascii.compare a c = Lt.
Proof.
  unfold Ascii.compare. rewrite !N.compare_lt_iff. apply N.lt_trans.
Qed.

Lemma string_compare_refl (s : string) : String.compare s s = Eq.
Proof.
  induction s as [|a s IH]; simpl; [done|]. by rewrite ascii_compare_refl.
Qed.

Lemma string_compare_lt_trans (s1 s2 s3 : string) :
  String.compare s1 s2 = Lt → String.compare s2 s3 = Lt →
  String.compare s1 s3 = Lt.
Proof.
  revert s2 s3. induction s1 as [|a s1 IH]; intros [|b s2] [|c s3]; simpl; try done.
  destruct (Ascii.compare a b) eqn:Hab; try done;
    destruct (Ascii.compare b c) eqn:Hbc; try done; intros H12 H23.
  - apply Ascii.compare_eq_iff in Hab, Hbc. subst.
    rewrite ascii_compare_refl. eauto.
  - apply Ascii.compare_eq_iff in Hab. subst. by rewrite Hbc.
  - apply Ascii.compare_eq_iff in Hbc. subst. by rewrite Hab.
  - by rewrite (ascii_compare_lt_trans _ _ _ Hab Hbc).
Qed.

Lemma string_ltb_lt (s1 s2 : string) :
  (s1 <? s2)%string = true ↔ String.compare s1 s2 = Lt.
Proof. unfold String.ltb. destruct (String.compare s1 s2); naive_solver. Qed.

Lemma string_leb_le (s1 s2 : string) :
  (s1 <=? s2)%string = true ↔ String.compare s1 s2 = Lt ∨ s1 = s2.
Proof.
  unfold String.leb. destruct (String.compare s1 s2) eqn:H.
  - apply String.compare_eq_iff in H. naive_solver.
  - naive_solver.
  - split; [done|]. intros [?| ->]; [done|]. by rewrite string_compare_refl in H.
Qed.

(** [a < b] is the negation of [b <= a]. *)
Lemma string_ltb_leb (s1 s2 : string) :
  (s1 <? s2)%string = negb (s2 <=? s1)%string.
Proof.
  unfold String.ltb, String.leb. rewrite (String.compare_antisym s1 s2).
  by destruct (String.compare s2 s1).
Qed.

Lemma string_leb_refl (s : string) : (s <=? s)%string = true.
Proof. apply string_leb_le. by right. Qed.

Lemma string_lt_le_trans (s1 s2 s3 : string) :
  (s1 <? s2)%string = true → (s2 <=? s3)%string = true → (s1 <? s3)%string = true.
Proof.
  rewrite !string_ltb_lt, string_leb_le. intros H [H'| <-]; [|done].
  eauto using string_compare_lt_trans.
Qed.

Lemma string_le_lt_trans (s1 s2 s3 : string) :
  (s1 <=? s2)%string = true → (s2 <? s3)%string = true → (s1 <? s3)%string = true.
Proof.
  rewrite !string_ltb_lt, string_leb_le. intros [H| ->] H'; [|done].
  eauto using string_compare_lt_trans.
Qed.

Lemma string_ltb_irrefl (s : string) : (s <? s)%string = false.
Proof. by rewrite string_ltb_leb, string_leb_refl. Qed.

(** The empty string is below every string. *)
Lemma MIN_KEY_least (s : string) : (MIN_KEY <=? s)%string = true.
Proof. by destruct s. Qed.

End StringOrder.

(** * Properties of the keyspace model *)

Section KeyspaceProperties.

Variable MAX_KEY : string.
Variable KIT_UNSET : value.

Local Abbreviation resolve_shard := (keyspace_id_to_shard_name_for_db_type MAX_KEY).
Local Abbreviation inside := (contains MAX_KEY).

(** ** The scan over stored shard references *)

Lemma inside_unfold (pkid : string) (s : ShardReference) :
  inside pkid s =
  (Start s <=? pkid)%string && ((End s =? MAX_KEY)%string || (pkid <? End s)%string).
Proof. reflexivity. Qed.

(** On stored shard references the loop returns the name of the first
    reference whose range contains the key. *)
Lemma scan_shards_find (pkid : string) (refs : list ShardReference) :
  scan_shards MAX_KEY pkid (shard_reference <$> refs) =
  OK (VStr ∘ Name <$> find (inside pkid) refs).
Proof.
  induction refs as [|s refs IH]; [done|].
  cbn [fmap list_fmap find]. cbn [scan_shards].
  change (getitem (shard_reference s) (VStr "KeyRange"))
    with (OK (VDict {[ "Start" := VStr (Start s); "End" := VStr (End s) ]})).
  change (getitem (shard_reference s) (VStr "Name")) with (OK (VStr (Name s))).
  cbn [mbind result_bind].
  change (getitem (VDict {[ "Start" := VStr (Start s); "End" := VStr (End s) ]})
            (VStr "Start")) with (OK (VStr (Start s))).
  change (getitem (VDict {[ "Start" := VStr (Start s); "End" := VStr (End s) ]})
            (VStr "End")) with (OK (VStr (End s))).
  cbn [mbind result_bind].
  change (_shard_contain_kid MAX_KEY pkid (VStr (Start s)) (VStr (End s)))
    with (inside pkid s).
  destruct (inside pkid s); [done|]. apply IH.
Qed.

(** The walk of [keyspace_id_to_shard_name_for_db_type] once the guards and
    the packing are behind. *)
Lemma resolve_shard_stored (ks : Keyspace) (k : Z) (db_type : value)
    (refs : list ShardReference) :
  0 < k < 2 ^ 64 →
  get_shards ks db_type = OK (VList (shard_reference <$> refs)) →
  resolve_shard ks (VInt k) db_type =
  match find (inside (pack_Q k)) refs with
  | Some s => OK (VStr (Name s))
  | None =>
      Raise (ValueError (cannot_find_shard (VInt k)
                           (VList (shard_reference <$> refs))))
  end.
Proof.
  intros Hk Hs. unfold keyspace_id_to_shard_name_for_db_type.
  assert (truthy (VInt k) = true) as ->.
  { simpl. destruct (Z.eqb_spec k 0); [lia|done]. }
  assert (truthy db_type = true) as ->.
  { unfold get_shards in Hs. by destruct (truthy db_type). }
  cbn [negb]. unfold pack_keyspace_id, struct_pack_Q. cbn [index_of].
  assert ((0 <=? k) && (k <? 2 ^ 64) = true) as ->.
  { apply andb_true_iff. split; [apply Z.leb_le|apply Z.ltb_lt]; lia. }
  cbn [mbind result_bind]. rewrite Hs. cbn [mbind result_bind iter].
  rewrite scan_shards_find. cbn [mbind result_bind].
  by destruct (find (inside (pack_Q k)) refs).
Qed.

(** ** A well-formed partitioning partitions the key space *)

(** No range of a chain from [lo] holds a key below [lo]. *)
Lemma contiguous_from_below (lo pkid : string) (refs : list ShardReference) :
  contiguous_from MAX_KEY lo refs = true → (pkid <? lo)%string = true →
  List.filter (inside pkid) refs = [].
Proof.
  revert lo. induction refs as [|s refs IH]; intros lo Hc Hlt; [done|].
  cbn [contiguous_from] in Hc. apply andb_true_iff in Hc as [Hs Hc].
  apply String.eqb_eq in Hs.
  assert (inside pkid s = false) as Hn.
  { rewrite inside_unfold, Hs. rewrite string_ltb_leb in Hlt.
    by destruct (lo <=? pkid)%string. }
  cbn [List.filter]. rewrite Hn. destruct refs as [|s' refs']; [done|].
  apply andb_true_iff in Hc as [Hc Hrest]. apply andb_true_iff in Hc as [Hlo _].
  apply (IH (End s)); [done|].
  eapply string_lt_le_trans; [exact Hlt|].
  rewrite string_ltb_leb in Hlo.
  destruct (String.leb_total lo (End s)) as [H|H]; [done|].
  by rewrite H in Hlo.
Qed.

(** Exactly one range of a chain from [lo] holds a key not below [lo]. *)
Lemma contiguous_from_unique (lo pkid : string) (refs : list ShardReference) :
  contiguous_from MAX_KEY lo refs = true → (lo <=? pkid)%string = true →
  ∃ s, List.filter (inside pkid) refs = [s].
Proof.
  revert lo. induction refs as [|s refs IH]; intros lo Hc Hle; [done|].
  cbn [contiguous_from] in Hc. apply andb_true_iff in Hc as [Hs Hc].
  apply String.eqb_eq in Hs. cbn [List.filter]. rewrite inside_unfold, Hs, Hle.
  destruct refs as [|s' refs'].
  - rewrite Hc. by exists s.
  - apply andb_true_iff in Hc as [Hc Hrest]. apply andb_true_iff in Hc as [_ Hmax].
    apply negb_true_iff in Hmax. rewrite Hmax. cbn [andb orb].
    destruct (pkid <? End s)%string eqn:Hlt.
    + exists s. by rewrite (contiguous_from_below _ _ _ Hrest Hlt).
    + apply (IH (End s)); [done|].
      rewrite string_ltb_leb in Hlt. by apply negb_false_iff in Hlt.
Qed.

Lemma filter_singleton_find {A} (f : A → bool) (l : list A) (x : A) :
  List.filter f l = [x] → find f l = Some x ∧ find f (rev l) = Some x.
Proof.
  intros H. split.
  - induction l as [|y l IH]; [done|]. cbn [List.filter find] in *.
    destruct (f y); [congruence|auto].
  - assert (List.filter f (rev l) = [x]) as Hr.
    { rewrite filter_rev, H. done. }
    clear H. induction (rev l) as [|y l' IH]; [done|]. cbn [List.filter find] in *.
    destruct (f y); [congruence|auto].
Qed.

(** ** Packing *)

Lemma N_of_byte_at (z i : Z) :
  0 ≤ i → Z.of_N (N_of_ascii (byte_at z i)) = (z / 2 ^ (8 * i)) mod 256.
Proof.
  intros Hi. unfold byte_at. change 255 with (Z.ones 8).
  rewrite Z.land_ones by lia. rewrite Z.shiftr_div_pow2 by lia.
  rewrite N_ascii_embedding.
  - rewrite Z2N.id; [done|]. apply Z.mod_pos_bound. lia.
  - apply N2Z.inj_lt. rewrite Z2N.id; apply Z.mod_pos_bound; lia.
Qed.

(** The packed key is eight bytes long and reads back, most significant byte
    first, as the key. *)
Lemma pack_Q_big_endian (k : Z) :
  0 ≤ k < 2 ^ 64 →
  String.length (pack_Q k) = 8%nat ∧ unpack_Q (pack_Q k) = k.
Proof.
  intros Hk. split; [done|]. unfold unpack_Q, pack_Q. cbn [unpack_from].
  rewrite !N_of_byte_at by lia.
  change (8 * 0) with 0. change (8 * 1) with 8. change (8 * 2) with 16.
  change (8 * 3) with 24. change (8 * 4) with 32. change (8 * 5) with 40.
  change (8 * 6) with 48. change (8 * 7) with 56.
  change (2 ^ 0) with 1. rewrite Z.div_1_r.
  assert (∀ n, 0 ≤ n → k / 2 ^ n = 256 * (k / 2 ^ (n + 8)) + (k / 2 ^ n) mod 256) as Hstep.
  { intros n Hn. rewrite Z.pow_add_r by lia. rewrite <- Z.div_div by lia.
    change (2 ^ 8) with 256. apply Z.div_mod. lia. }
  pose proof (Hstep 0 ltac:(lia)) as H0. pose proof (Hstep 8 ltac:(lia)) as H1.
  pose proof (Hstep 16 ltac:(lia)) as H2. pose proof (Hstep 24 ltac:(lia)) as H3.
  pose proof (Hstep 32 ltac:(lia)) as H4. pose proof (Hstep 40 ltac:(lia)) as H5.
  pose proof (Hstep 48 ltac:(lia)) as H6. pose proof (Hstep 56 ltac:(lia)) as H7.
  change (0 + 8) with 8 in H0. change (8 + 8) with 16 in H1.
  change (16 + 8) with 24 in H2. change (24 + 8) with 32 in H3.
  change (32 + 8) with 40 in H4. change (40 + 8) with 48 in H5.
  change (48 + 8) with 56 in H6. change (56 + 8) with 64 in H7.
  change (2 ^ 0) with 1 in H0. rewrite Z.div_1_r in H0.
  assert (k / 2 ^ 64 = 0) as H8 by (apply Z.div_small; lia).
  lia.
Qed.

Lemma unpack_from_acc (s : string) (acc : Z) :
  unpack_from acc s = acc * 256 ^ Z.of_nat (String.length s) + unpack_from 0 s.
Proof.
  revert acc. induction s as [|c s IH]; intros acc.
  - cbn [unpack_from String.length]. change (256 ^ Z.of_nat 0) with 1. lia.
  - cbn [unpack_from String.length]. rewrite (IH (acc * 256 + _)), (IH (0 * 256 + _)).
    rewrite Nat2Z.inj_succ, Z.pow_succ_r by lia. lia.
Qed.

Lemma unpack_from_bound (s : string) :
  0 ≤ unpack_from 0 s < 256 ^ Z.of_nat (String.length s).
Proof.
  induction s as [|c s IH].
  - cbn [unpack_from String.length]. change (256 ^ Z.of_nat 0) with 1. lia.
  - cbn [unpack_from String.length]. rewrite unpack_from_acc.
    rewrite Nat2Z.inj_succ, Z.pow_succ_r by lia.
    assert (Z.of_N (N_of_ascii c) < 256) as Hc.
    { pose proof (N_ascii_bounded c). lia. }
    assert (0 ≤ Z.of_N (N_of_ascii c)) by lia. nia.
Qed.

(** On byte strings of one length the lexicographic order is the order of the
    numbers they spell, most significant byte first. *)
Lemma string_compare_unpack (s1 s2 : string) :
  String.length s1 = String.length s2 →
  String.compare s1 s2 = Z.compare (unpack_Q s1) (unpack_Q s2).
Proof.
  unfold unpack_Q. revert s2.
  induction s1 as [|c1 s1 IH]; intros [|c2 s2] Hlen; try done.
  injection Hlen as Hlen. cbn [String.compare unpack_from].
  rewrite (unpack_from_acc s1), (unpack_from_acc s2), <- Hlen.
  pose proof (unpack_from_bound s1) as B1. pose proof (unpack_from_bound s2) as B2.
  rewrite <- Hlen in B2. unfold Ascii.compare. rewrite <- N2Z.inj_compare.
  set (n1 := Z.of_N (N_of_ascii c1)). set (n2 := Z.of_N (N_of_ascii c2)).
  set (B := 256 ^ Z.of_nat (String.length s1)) in *.
  destruct (Z.compare_spec n1 n2) as [->|Hlt|Hgt].
  - rewrite (IH s2 Hlen). symmetry.
    destruct (Z.compare_spec (unpack_from 0 s1) (unpack_from 0 s2)).
    + apply Z.compare_eq_iff. lia.
    + apply Z.compare_lt_iff. lia.
    + apply Z.compare_gt_iff. lia.
  - symmetry. apply Z.compare_lt_iff. nia.
  - symmetry. apply Z.compare_gt_iff. nia.
Qed.

(** Packing keeps the order of the keys: comparing packed keys byte-wise is
    comparing the keys. *)
Lemma pack_Q_compare (a b : Z) :
  0 ≤ a < 2 ^ 64 → 0 ≤ b < 2 ^ 64 →
  String.compare (pack_Q a) (pack_Q b) = Z.compare a b.
Proof.
  intros Ha Hb. rewrite string_compare_unpack by done.
  by rewrite (proj2 (pack_Q_big_endian a Ha)), (proj2 (pack_Q_big_endian b Hb)).
Qed.

Lemma pack_keyspace_id_in_range (k : Z) :
  0 ≤ k < 2 ^ 64 → pack_keyspace_id (VInt k) = OK (pack_Q k).
Proof.
  intros Hk. unfold pack_keyspace_id, struct_pack_Q. cbn [index_of].
  assert ((0 <=? k) && (k <? 2 ^ 64) = true) as ->; [|done].
  apply andb_true_iff. split; [apply Z.leb_le|apply Z.ltb_lt]; lia.
Qed.

Lemma pack_keyspace_id_out_of_range (k : Z) :
  k < 0 ∨ 2 ^ 64 ≤ k → pack_keyspace_id (VInt k) = Raise StructError.
Proof.
  intros Hk. unfold pack_keyspace_id, struct_pack_Q. cbn [index_of].
  assert ((0 <=? k) && (k <? 2 ^ 64) = false) as ->; [|done].
  apply andb_false_iff. rewrite Z.leb_gt, Z.ltb_ge. lia.
Qed.

(** ** The guards *)

Lemma truthy_false_iff (v : value) :
  truthy v = false ↔
  v = VNone ∨ v = VBool false ∨ v = VInt 0 ∨ v = VStr "" ∨ v = VList [] ∨ v = VDict ∅.
Proof.
  destruct v as [|b|z|s|l|d]; simpl.
  - intuition discriminate.
  - destruct b; intuition discriminate.
  - destruct (Z.eqb_spec z 0); [subst|]; intuition (discriminate || congruence).
  - destruct (String.eqb_spec s ""); [subst|]; intuition (discriminate || congruence).
  - destruct l; intuition discriminate.
  - destruct (Nat.eqb_spec (size d) 0) as [H|H].
    + apply map_size_empty_iff in H. subst. intuition.
    + split; [done|]. intros [?|[?|[?|[?|[?|[= ->]]]]]]; done.
Qed.

(** The shard references stored for a role are what [get_shards] returns. *)
Lemma get_shards_stored (ks : Keyspace) (P E : gmap string value)
    (role : string) (shards : value) :
  role ≠ "" → partitions ks = VDict P → P !! role = Some (VDict E) →
  E !! "ShardReferences" = Some shards →
  get_shards ks (VStr role) = OK shards.
Proof.
  intros Hr HP HE Hs. unfold get_shards.
  assert (truthy (VStr role) = true) as ->.
  { simpl. by destruct (String.eqb_spec role ""). }
  rewrite HP. cbn [negb getitem]. rewrite HE. cbn [mbind result_bind getitem].
  by rewrite Hs.
Qed.

(** ** Resolving a keyspace id *)

(** C1.  In a well-formed partitioning (ranges contiguous and without overlap
    from the least key to the unbounded sentinel) exactly one range holds any
    given byte string, the range [Start, End) being read on the byte strings
    themselves ([in_range]).  For every valid key (non-zero and packable) the
    key is packed into the eight bytes that spell it, most significant first,
    and [keyspace_id_to_shard_name_for_db_type] returns the name of the one
    shard whose range holds the packed key: it does not raise, and the first
    match, the last match and the only match coincide. *)
Theorem resolve_shard_exactly_one (ks : Keyspace) (db_type : value)
    (refs : list ShardReference) (k : Z) :
  get_shards ks db_type = OK (VList (shard_reference <$> refs)) →
  well_formed MAX_KEY refs = true →
  0 < k < 2 ^ 64 →
  (∀ pkid, ∃ s, List.filter (in_range MAX_KEY pkid) refs = [s]) ∧
  ∃ p s, pack_keyspace_id (VInt k) = OK p ∧
         String.length p = 8%nat ∧
         unpack_Q p = k ∧
         List.filter (in_range MAX_KEY p) refs = [s] ∧
         find (in_range MAX_KEY p) refs = Some s ∧
         find (in_range MAX_KEY p) (rev refs) = Some s ∧
         resolve_shard ks (VInt k) db_type = OK (VStr (Name s)).
Proof.
  intros Hs Hwf Hk. change (in_range MAX_KEY) with (contains MAX_KEY).
  assert (∀ pkid, ∃ s, List.filter (inside pkid) refs = [s]) as Hone.
  { intros pkid. eapply contiguous_from_unique; [exact Hwf|apply MIN_KEY_least]. }
  split; [exact Hone|].
  destruct (Hone (pack_Q k)) as [s Hf]. exists (pack_Q k), s.
  destruct (filter_singleton_find _ _ _ Hf) as [Hfirst Hlast].
  destruct (pack_Q_big_endian k) as [Hlen Hbe]; [lia|].
  repeat split; try done.
  - apply pack_keyspace_id_in_range. lia.
  - by rewrite (resolve_shard_stored ks k db_type refs Hk Hs), Hfirst.
Qed.

(** C2, amended.  For every key in [1, 2^64) and every role whose stored shard
    references are [refs] (none, when the role has no partitioning), the key
    is packed into eight bytes, most significant first; the references are
    scanned in stored order; the name of the first one whose range
    [Start <= pkid] and ([End] is the sentinel or [pkid < End]) holds the
    packed key is returned, and when there is none the call fails with the
    shard-not-found [ValueError].  A range that ends at the sentinel holds
    every key from its start on. *)
Theorem resolve_shard_first_match (ks : Keyspace) (db_type : value)
    (refs : list ShardReference) (k : Z) :
  0 < k < 2 ^ 64 →
  get_shards ks db_type = OK (VList (shard_reference <$> refs)) →
  pack_keyspace_id (VInt k) = OK (pack_Q k) ∧
  String.length (pack_Q k) = 8%nat ∧
  unpack_Q (pack_Q k) = k ∧
  resolve_shard ks (VInt k) db_type =
    match find (inside (pack_Q k)) refs with
    | Some s => OK (VStr (Name s))
    | None =>
        Raise (ValueError (cannot_find_shard (VInt k)
                             (VList (shard_reference <$> refs))))
    end ∧
  (∀ pkid s, inside pkid s =
     (Start s <=? pkid)%string &&
     ((End s =? MAX_KEY)%string || (pkid <? End s)%string)) ∧
  (∀ pkid s, End s = MAX_KEY → inside pkid s = (Start s <=? pkid)%string).
Proof.
  intros Hk Hs.
  destruct (pack_Q_big_endian k) as [Hlen Hbe]; [lia|].
  repeat split; try done.
  - apply pack_keyspace_id_in_range. lia.
  - by apply resolve_shard_stored.
  - intros pkid s He. rewrite inside_unfold, He, String.eqb_refl.
    by rewrite andb_true_r.
Qed.

(** C6.  A call of [keyspace_id_to_shard_name_for_db_type] with an unset key
    or an unset role fails with a [ValueError], whatever the keyspace holds:
    the outcome is the same for every other keyspace, so the partitioning is
    not consulted.  [get_shards], [get_shard_count] and [get_shard_names] do
    the same on an unset role. *)
Theorem unset_argument_rejected (ks ks' : Keyspace) (keyspace_id db_type : value) :
  (truthy keyspace_id = false ∨ truthy db_type = false →
   resolve_shard ks keyspace_id db_type =
     Raise (ValueError (if truthy keyspace_id then db_type_is_not_set
                        else keyspace_id_is_not_set)) ∧
   resolve_shard ks' keyspace_id db_type = resolve_shard ks keyspace_id db_type) ∧
  (truthy db_type = false →
   get_shards ks db_type = Raise (ValueError db_type_is_not_set) ∧
   get_shard_count ks db_type = Raise (ValueError db_type_is_not_set) ∧
   get_shard_names ks db_type = Raise (ValueError db_type_is_not_set)).
Proof.
  split.
  - intros H. unfold keyspace_id_to_shard_name_for_db_type.
    destruct (truthy keyspace_id); [|done].
    destruct H as [H|H]; [done|]. by rewrite H.
  - intros H. unfold get_shards, get_shard_count, get_shard_names. by rewrite H.
Qed.

(** C7.  For a set role that the partitions of the keyspace do not list,
    [get_shards] returns the empty list instead of raising, the shard count is
    0 and the list of shard names is empty. *)
Theorem absent_role_has_no_shards (ks : Keyspace) (P : gmap string value)
    (role : string) :
  role ≠ "" →
  partitions ks = VDict P →
  P !! role = None →
  get_shards ks (VStr role) = OK (VList []) ∧
  get_shard_count ks (VStr role) = OK (VInt 0) ∧
  get_shard_names ks (VStr role) = OK (VList []).
Proof.
  intros Hr HP Hnone.
  assert (truthy (VStr role) = true) as Ht.
  { simpl. by destruct (String.eqb_spec role ""). }
  assert (get_shards ks (VStr role) = OK (VList [])) as Hg.
  { unfold get_shards. rewrite Ht, HP. cbn [negb getitem]. by rewrite Hnone. }
  unfold get_shard_count, get_shard_names. by rewrite Ht, Hg.
Qed.

(** [Keyspace.__init__] fails only when [data] is not a dictionary. *)
Lemma Keyspace_init_raises (n data : value) (e : exn) :
  Keyspace_init KIT_UNSET n data = Raise e →
  e = AttributeError ∧ ∀ d, data ≠ VDict d.
Proof.
  unfold Keyspace_init. destruct data; simpl; intros [= <-]; done.
Qed.

(** C8.  [read_keyspace]: an empty record from the topology client fails with
    the empty-keyspace [OperationalError]; an [OperationalError] raised by the
    client comes out as it is; every other [Exception], raised by the client
    or while the record is loaded, is wrapped in an [OperationalError] that
    carries the keyspace name and the exception; what is not an [Exception]
    (an interrupt, an exit) passes through.  An exception that comes out
    wrapped is therefore never an [OperationalError] itself. *)
Theorem read_keyspace_errors (topo_client : TopoClient) (keyspace_name : value) :
  (∀ data, topo_client (VStr "local") keyspace_name = OK data →
     truthy data = false →
     read_keyspace KIT_UNSET topo_client keyspace_name =
       Raise (OperationalError [VStr "invalid empty keyspace"; keyspace_name] None)) ∧
  (∀ e, topo_client (VStr "local") keyspace_name = Raise e →
     is_OperationalError e = true →
     read_keyspace KIT_UNSET topo_client keyspace_name = Raise e) ∧
  (∀ e, topo_client (VStr "local") keyspace_name = Raise e →
     is_OperationalError e = false → is_Exception e = true →
     read_keyspace KIT_UNSET topo_client keyspace_name =
       Raise (OperationalError [VStr "invalid keyspace"; keyspace_name] (Some e))) ∧
  (∀ data e, topo_client (VStr "local") keyspace_name = OK data →
     truthy data = true →
     Keyspace_init KIT_UNSET keyspace_name data = Raise e →
     read_keyspace KIT_UNSET topo_client keyspace_name =
       Raise (OperationalError [VStr "invalid keyspace"; keyspace_name] (Some e))) ∧
  (∀ e, topo_client (VStr "local") keyspace_name = Raise e →
     is_Exception e = false →
     read_keyspace KIT_UNSET topo_client keyspace_name = Raise e) ∧
  (∀ args e, read_keyspace KIT_UNSET topo_client keyspace_name =
               Raise (OperationalError args (Some e)) →
     topo_client (VStr "local") keyspace_name =
       Raise (OperationalError args (Some e)) ∨
     is_OperationalError e = false).
Proof.
  unfold read_keyspace, read_keyspace_body. repeat split.
  - intros data -> Hd. cbn [mbind result_bind]. by rewrite Hd.
  - intros e -> He. cbn [mbind result_bind]. by rewrite He.
  - intros e -> He Hx. cbn [mbind result_bind]. by rewrite He, Hx.
  - intros data e -> Hd Hi. cbn [mbind result_bind]. rewrite Hd. cbn [negb].
    rewrite Hi. by destruct (Keyspace_init_raises _ _ _ Hi) as [-> _].
  - intros e -> Hx. cbn [mbind result_bind]. destruct e; try done.
  - intros args e.
    destruct (topo_client (VStr "local") keyspace_name) as [data|e0];
      cbn [mbind result_bind].
    + destruct (truthy data); cbn [negb is_OperationalError]; [|done].
      destruct (Keyspace_init KIT_UNSET keyspace_name data) as [?|e1] eqn:Hi; [done|].
      destruct (Keyspace_init_raises _ _ _ Hi) as [-> _].
      cbn [is_OperationalError is_Exception]. intros [= <- <-]. right. reflexivity.
    + destruct (is_OperationalError e0) eqn:He0.
      * intros [= ->]. by left.
      * destruct (is_Exception e0); [|intros [= ->]; by left].
        intros [= <- <-]. right. exact He0.
Qed.

(** C9.  [Keyspace(name, data)] succeeds on every dictionary and takes each
    field from it, or its default when the key is missing: no partitions, the
    empty column name, the unset column type and no redirect.  On such a
    keyspace a role whose partition record lacks ['ShardReferences'] gives the
    same as a role that is absent: the empty list. *)
Theorem Keyspace_init_defaults (n : value) (d : gmap string value) :
  Keyspace_init KIT_UNSET n (VDict d) =
    OK (mkKeyspace n
          (default (VDict ∅) (d !! "Partitions"))
          (default (VStr "") (d !! "ShardingColumnName"))
          (default KIT_UNSET (d !! "ShardingColumnType"))
          (default VNone (d !! "ServedFrom"))) ∧
  Keyspace_init KIT_UNSET n (VDict ∅) =
    OK (mkKeyspace n (VDict ∅) (VStr "") KIT_UNSET VNone) ∧
  (∀ ks P E role, role ≠ "" → partitions ks = VDict P →
     P !! role = Some (VDict E) → E !! "ShardReferences" = None →
     get_shards ks (VStr role) = OK (VList []) ∧
     get_shards ks (VStr role) =
       get_shards (mkKeyspace (name ks) (VDict (delete role P))
                     (sharding_col_name ks) (sharding_col_type ks)
                     (served_from ks)) (VStr role)).
Proof.
  repeat split.
  - intros. unfold get_shards.
    assert (truthy (VStr role) = true) as ->.
    { simpl. by destruct (String.eqb_spec role ""). }
    rewrite H0. cbn [negb getitem]. rewrite H1. cbn [mbind result_bind getitem].
    by rewrite H2.
  - intros. unfold get_shards.
    assert (truthy (VStr role) = true) as ->.
    { simpl. by destruct (String.eqb_spec role ""). }
    rewrite H0. cbn [negb getitem partitions]. rewrite H1, lookup_delete_eq.
    cbn [mbind result_bind getitem]. by rewrite H2.
Qed.

(** A key that cannot be packed ends the call at the packing step, or before
    it at the guard on the role. *)
Lemma resolve_shard_unpackable (ks : Keyspace) (db_type : value) (k : Z) :
  k < 0 ∨ 2 ^ 64 ≤ k →
  resolve_shard ks (VInt k) db_type =
  if truthy db_type then Raise StructError
  else Raise (ValueError db_type_is_not_set).
Proof.
  intros Hk. unfold keyspace_id_to_shard_name_for_db_type.
  assert (truthy (VInt k) = true) as ->.
  { simpl. destruct (Z.eqb_spec k 0); [lia|done]. }
  destruct (truthy db_type); [|done]. cbn [negb].
  by rewrite pack_keyspace_id_out_of_range.
Qed.

(** C10.  For a key below 0 or from 2^64 on the packing step raises its own
    error; a call with a set role ends in that error, which is not a
    [ValueError], and no call with such a key returns a shard name or gets as
    far as the shard-not-found error, whatever the keyspace holds.  Key 0 is
    rejected before as unset.  So a call that returns a shard name had a key
    in [1, 2^64). *)
Theorem resolve_shard_key_domain (ks : Keyspace) (db_type : value) (k : Z) :
  (k < 0 ∨ 2 ^ 64 ≤ k →
   pack_keyspace_id (VInt k) = Raise StructError ∧
   (truthy db_type = true →
    resolve_shard ks (VInt k) db_type = Raise StructError) ∧
   (∀ n, resolve_shard ks (VInt k) db_type ≠ OK n) ∧
   (∀ kid shards, resolve_shard ks (VInt k) db_type ≠
                  Raise (ValueError (cannot_find_shard kid shards)))) ∧
  resolve_shard ks (VInt 0) db_type = Raise (ValueError keyspace_id_is_not_set) ∧
  (∀ n, resolve_shard ks (VInt k) db_type = OK n → 1 ≤ k < 2 ^ 64).
Proof.
  split; [|split; [done|]].
  - intros Hk. rewrite (resolve_shard_unpackable ks db_type k Hk).
    split; [by apply pack_keyspace_id_out_of_range|].
    destruct (truthy db_type); repeat split; (done || by intros).
  - intros n Hn. destruct (Z.eq_dec k 0) as [->|Hk0]; [done|].
    destruct (Z.le_gt_cases 1 k) as [H1|H1];
      [destruct (Z.lt_ge_cases k (2 ^ 64)) as [H2|H2]; [done|]|];
      rewrite resolve_shard_unpackable in Hn by lia;
      by destruct (truthy db_type).
Qed.

End KeyspaceProperties.

(** ** The properties on the sample keyspace *)

Lemma resolve_shard_exactly_one_witness :
  get_shards example_keyspace (VStr "master") =
    OK (VList (shard_reference <$> example_refs)) ∧
  well_formed "" example_refs = true ∧
  ∃ p s, pack_keyspace_id (VInt 1) = OK p ∧
         List.filter (in_range "" p) example_refs = [s] ∧
         keyspace_id_to_shard_name_for_db_type "" example_keyspace (VInt 1)
           (VStr "master") = OK (VStr (Name s)).
Proof.
  split; [reflexivity|]. split; [reflexivity|].
  destruct (resolve_shard_exactly_one "" example_keyspace (VStr "master")
              example_refs 1) as [_ (p & s & Hp & _ & _ & Hf & _ & _ & Hr)];
    [reflexivity|reflexivity|lia|].
  exists p, s. repeat split; assumption.
Defined.

Lemma resolve_shard_first_match_witness :
  keyspace_id_to_shard_name_for_db_type "" example_keyspace (VInt (2 ^ 63))
    (VStr "master") = OK (VStr "80-").
Proof.
  destruct (resolve_shard_first_match "" example_keyspace (VStr "master")
              example_refs (2 ^ 63)) as (_ & _ & _ & Hr & _);
    [lia|reflexivity|].
  rewrite Hr. reflexivity.
Defined.

(** C2, as stated, fails for the non-zero key 2^64: the role is set and has
    two stored references, the first of which would hold the eight zero bytes,
    yet the call ends in the packing error, neither a shard name nor the
    shard-not-found error. *)
Lemma resolve_shard_key_out_of_range :
  truthy (VInt (2 ^ 64)) = true ∧
  truthy (VStr "master") = true ∧
  get_shards example_keyspace (VStr "master") =
    OK (VList (shard_reference <$> example_refs)) ∧
  keyspace_id_to_shard_name_for_db_type "" example_keyspace (VInt (2 ^ 64))
    (VStr "master") = Raise StructError ∧
  keyspace_id_to_shard_name_for_db_type "" example_keyspace (VInt (2 ^ 64))
    (VStr "master") ≠
    match find (contains "" (pack_Q (2 ^ 64))) example_refs with
    | Some s => OK (VStr (Name s))
    | None =>
        Raise (ValueError (cannot_find_shard (VInt (2 ^ 64))
                             (VList (shard_reference <$> example_refs))))
    end.
Proof.
  assert (keyspace_id_to_shard_name_for_db_type "" example_keyspace
            (VInt (2 ^ 64)) (VStr "master") = Raise StructError) as H
    by reflexivity.
  repeat split; try reflexivity. rewrite H.
  destruct (find (contains "" (pack_Q (2 ^ 64))) example_refs); discriminate.
Qed.

Lemma unset_argument_rejected_witness :
  keyspace_id_to_shard_name_for_db_type "" example_keyspace (VInt 0)
    (VStr "master") = Raise (ValueError keyspace_id_is_not_set) ∧
  get_shards example_keyspace (VStr "") = Raise (ValueError db_type_is_not_set).
Proof.
  split.
  - apply (proj1 (unset_argument_rejected "" example_keyspace example_keyspace
                    (VInt 0) (VStr "master"))).
    left. reflexivity.
  - apply (proj2 (unset_argument_rejected "" example_keyspace example_keyspace
                    (VInt 0) (VStr ""))).
    reflexivity.
Defined.

Lemma absent_role_has_no_shards_witness :
  get_shards example_keyspace (VStr "spare") = OK (VList []) ∧
  get_shard_count example_keyspace (VStr "spare") = OK (VInt 0) ∧
  get_shard_names example_keyspace (VStr "spare") = OK (VList []).
Proof.
  eapply (absent_role_has_no_shards example_keyspace _ "spare");
    [discriminate|reflexivity|reflexivity].
Defined.

Lemma read_keyspace_errors_witness :
  read_keyspace (VStr "") (fun _ _ => OK (VDict ∅)) (VStr "test_keyspace") =
    Raise (OperationalError [VStr "invalid empty keyspace"; VStr "test_keyspace"] None) ∧
  read_keyspace (VStr "") (fun _ _ => Raise (OtherException "ZooKeeperError"))
    (VStr "test_keyspace") =
    Raise (OperationalError [VStr "invalid keyspace"; VStr "test_keyspace"]
             (Some (OtherException "ZooKeeperError"))).
Proof.
  split.
  - eapply (proj1 (read_keyspace_errors (VStr "") _ _)); reflexivity.
  - eapply (proj1 (proj2 (proj2 (read_keyspace_errors (VStr "") _ _))));
      reflexivity.
Defined.

Lemma Keyspace_init_defaults_witness :
  get_shards example_keyspace (VStr "replica") = OK (VList []).
Proof.
  eapply (proj1 (proj2 (proj2 (Keyspace_init_defaults (VStr "") VNone ∅))
                   example_keyspace _ ∅ "replica" _ _ _ _)).
  Unshelve. all: try reflexivity. discriminate.
Defined.

Lemma resolve_shard_key_domain_witness :
  keyspace_id_to_shard_name_for_db_type "" example_keyspace (VInt (-1))
    (VStr "master") = Raise StructError.
Proof.
  apply (proj1 (resolve_shard_key_domain "" example_keyspace (VStr "master") (-1)));
    [lia|reflexivity].
Defined.

(** * Properties of the reparenting protocol *)

Module ReparentProperties.
Import Reparent.

(** ** The rewiring step *)

Lemma rewire_lookup (new : TabletAlias) (skip : list TabletAlias)
    (ts : gmap TabletAlias Tablet) (a : TabletAlias) :
  rewire new skip ts !! a = rewire_one new skip a <$> ts !! a.
Proof. unfold rewire. rewrite map_lookup_imap. by destruct (ts !! a). Qed.

Lemma rewire_failures_spec (skip : list TabletAlias)
    (ts : gmap TabletAlias Tablet) (a : TabletAlias) :
  a ∈ rewire_failures skip ts ↔
  ∃ t, ts !! a = Some t ∧ to_rewire skip a t = true ∧ reachable t = false.
Proof.
  unfold rewire_failures. rewrite list_elem_of_fmap. split.
  - intros [[a' t] [-> H]].
    apply elem_of_map_to_list, map_lookup_filter_Some in H as [H1 H2].
    cbn [fst snd] in *. apply andb_true_iff in H2 as [H2 H3].
    apply negb_true_iff in H3. eauto.
  - intros (t & H1 & H2 & H3). exists (a, t). split; [done|].
    apply elem_of_map_to_list, map_lookup_filter_Some. split; [done|].
    cbn [fst snd]. by rewrite H2, H3.
Qed.

Lemma rewire_failures_nil (skip : list TabletAlias) (ts : gmap TabletAlias Tablet) :
  rewire_failures skip ts = [] ↔
  ∀ a t, ts !! a = Some t → to_rewire skip a t = true → reachable t = true.
Proof.
  split.
  - intros H a t Ha Hr. destruct (reachable t) eqn:Ht; [done|].
    assert (a ∈ rewire_failures skip ts) as Hin by (apply rewire_failures_spec; eauto).
    rewrite H in Hin. by apply elem_of_nil in Hin.
  - intros H. destruct (rewire_failures skip ts) as [|a l] eqn:Hl; [done|].
    assert (a ∈ rewire_failures skip ts) as Hin by (rewrite Hl; left).
    apply rewire_failures_spec in Hin as (t & H1 & H2 & H3).
    by rewrite (H a t H1 H2) in H3.
Qed.

Lemma rewire_one_role (new : TabletAlias) (skip : list TabletAlias)
    (a : TabletAlias) (t : Tablet) :
  role (rewire_one new skip a t) = role t ∧
  reachable (rewire_one new skip a t) = reachable t.
Proof.
  unfold rewire_one, set_master.
  destruct (to_rewire skip a t); [|done]. by destruct (reachable t) eqn:H.
Qed.

(** A tablet of the shard that answers and is not skipped replicates from
    the new master afterwards. *)
Lemma rewire_one_target (new : TabletAlias) (skip : list TabletAlias)
    (a : TabletAlias) (t : Tablet) :
  to_rewire skip a t = true → reachable t = true →
  replication_target (rewire_one new skip a t) = Some new.
Proof. unfold rewire_one, set_master. by intros -> ->. Qed.

(** A tablet whose rewire fails, or that is skipped, keeps its state. *)
Lemma rewire_one_unchanged (new : TabletAlias) (skip : list TabletAlias)
    (a : TabletAlias) (t : Tablet) :
  to_rewire skip a t = false ∨ reachable t = false →
  rewire_one new skip a t = t.
Proof.
  unfold rewire_one, set_master. intros [->| ->]; [done|].
  by destruct (to_rewire skip a t).
Qed.

Lemma rewire_report_ok (failed : list TabletAlias) :
  exit_ok (rewire_report failed) = true ↔ failed = [].
Proof.
  unfold rewire_report, exit_ok. cbn [success failed_replicas andb].
  apply bool_decide_eq_true.
Qed.

Lemma to_rewire_skipped (skip : list TabletAlias) (a : TabletAlias) (t : Tablet) :
  a ∈ skip → to_rewire skip a t = false.
Proof.
  intros H. unfold to_rewire. rewrite (bool_decide_eq_false_2 (a ∉ skip)) by auto.
  by rewrite andb_false_r.
Qed.

Lemma to_rewire_true (skip : list TabletAlias) (a : TabletAlias) (t : Tablet) :
  to_rewire skip a t = true ↔ in_shard t = true ∧ a ∉ skip.
Proof. unfold to_rewire. by rewrite andb_true_iff, bool_decide_eq_true. Qed.

Lemma in_shard_role (t : Tablet) : in_shard t = true ↔ role t ≠ scrapped.
Proof. apply bool_decide_eq_true. Qed.

(** A tablet to rewire that is not among the failures replicates from the new
    master afterwards. *)
Lemma rewired_unless_failed (new : TabletAlias) (skip : list TabletAlias)
    (ts : gmap TabletAlias Tablet) (a : TabletAlias) (t : Tablet) :
  ts !! a = Some t → to_rewire skip a t = true →
  a ∉ rewire_failures skip ts →
  replication_target (rewire_one new skip a t) = Some new.
Proof.
  intros Ha Hr Hnf. apply rewire_one_target; [done|].
  destruct (reachable t) eqn:Ht; [done|]. exfalso. apply Hnf.
  apply rewire_failures_spec. eauto.
Qed.

(** ** The tablets after the commit *)

Lemma commit_lookup_new (old : option TabletAlias) (r : Role) (new : TabletAlias)
    (ts : gmap TabletAlias Tablet) (t : Tablet) :
  old ≠ Some new → ts !! new = Some t →
  tablets (commit old r new ts) !! new = Some (set_role master t).
Proof.
  intros Ho Ht. unfold commit. cbn [tablets]. rewrite lookup_alter_eq.
  destruct old as [o|]; [rewrite lookup_alter_ne by congruence|]; by rewrite Ht.
Qed.

Lemma commit_lookup_old (old new : TabletAlias) (r : Role)
    (ts : gmap TabletAlias Tablet) :
  old ≠ new →
  tablets (commit (Some old) r new ts) !! old = set_role r <$> ts !! old.
Proof.
  intros Ho. unfold commit. cbn [tablets].
  rewrite lookup_alter_ne by done. by rewrite lookup_alter_eq.
Qed.

Lemma commit_lookup_other (old : option TabletAlias) (r : Role)
    (new a : TabletAlias) (ts : gmap TabletAlias Tablet) :
  a ≠ new → old ≠ Some a →
  tablets (commit old r new ts) !! a = ts !! a.
Proof.
  intros Hn Ho. unfold commit. cbn [tablets].
  rewrite lookup_alter_ne by done.
  destruct old as [o|]; [|done]. rewrite lookup_alter_ne; [done|congruence].
Qed.

(** ** The two operations, step by step *)

(** A planned reparent whose demote and promote calls succeed goes through the
    rewiring step and commits. *)
Lemma planned_reparent_commits (c : Cluster) (old new : TabletAlias) (to tn : Tablet) :
  shard_master c = Some old → new ≠ old →
  tablets c !! old = Some to → reachable to = true →
  tablets c !! new = Some tn → reachable tn = true →
  planned_reparent new c =
    (commit (Some old) spare new
       (rewire new [new; old]
          (<[new := promoted tn]> (<[old := demoted to]> (tablets c)))),
     rewire_report
       (rewire_failures [new; old]
          (<[new := promoted tn]> (<[old := demoted to]> (tablets c))))).
Proof.
  intros Hm Hne Ho Hro Hn Hrn. unfold planned_reparent.
  rewrite Hm.
  rewrite bool_decide_eq_false_2 by done. rewrite Ho. cbn [mbind option_bind].
  unfold demote_master. rewrite Hro.
  rewrite lookup_insert_ne by congruence. rewrite Hn. cbn [mbind option_bind].
  unfold promote_slave. by rewrite Hrn.
Qed.

(** A planned reparent that reports success went through these steps. *)
Lemma planned_reparent_ok_inv (c : Cluster) (new : TabletAlias) :
  success (planned_reparent new c).2 = true →
  ∃ old to tn,
    shard_master c = Some old ∧ new ≠ old ∧
    tablets c !! old = Some to ∧ reachable to = true ∧
    tablets c !! new = Some tn ∧ reachable tn = true.
Proof.
  unfold planned_reparent. destruct (shard_master c) as [old|]; [|done].
  case_bool_decide as Hne; [done|].
  destruct (tablets c !! old) as [to|] eqn:Ho; [|done]. cbn [mbind option_bind].
  unfold demote_master. destruct (reachable to) eqn:Hro; [|done].
  rewrite lookup_insert_ne by congruence.
  destruct (tablets c !! new) as [tn|] eqn:Hn; [|done]. cbn [mbind option_bind].
  unfold promote_slave. destruct (reachable tn) eqn:Hrn; [|done].
  intros _. by exists old, to, tn.
Qed.

Lemma emergency_reparent_commits (c : Cluster) (new : TabletAlias) (tn : Tablet) :
  shard_master c ≠ Some new →
  tablets c !! new = Some tn → reachable tn = true →
  emergency_reparent new c =
    (commit (shard_master c) scrapped new
       (rewire new (new :: option_list (shard_master c))
          (<[new := promoted tn]> (tablets c))),
     rewire_report
       (rewire_failures (new :: option_list (shard_master c))
          (<[new := promoted tn]> (tablets c)))).
Proof.
  intros Hm Hn Hrn. unfold emergency_reparent.
  rewrite bool_decide_eq_false_2 by done. rewrite Hn. cbn [mbind option_bind].
  unfold promote_slave. by rewrite Hrn.
Qed.

Lemma emergency_reparent_ok_inv (c : Cluster) (new : TabletAlias) :
  success (emergency_reparent new c).2 = true →
  ∃ tn, shard_master c ≠ Some new ∧
        tablets c !! new = Some tn ∧ reachable tn = true.
Proof.
  unfold emergency_reparent. case_bool_decide as Hne; [done|].
  destruct (tablets c !! new) as [tn|] eqn:Hn; [|done]. cbn [mbind option_bind].
  unfold promote_slave. destruct (reachable tn) eqn:Hrn; [|done].
  intros _. by exists tn.
Qed.

Lemma to_rewire_planned (old new a : TabletAlias) (t : Tablet) :
  to_rewire [new; old] a t = true ↔ in_shard t = true ∧ a ≠ new ∧ a ≠ old.
Proof.
  rewrite to_rewire_true, !not_elem_of_cons.
  pose proof (not_elem_of_nil a). intuition.
Qed.

Lemma to_rewire_emergency (old : option TabletAlias) (new a : TabletAlias)
    (t : Tablet) :
  to_rewire (new :: option_list old) a t = true ↔
  in_shard t = true ∧ a ≠ new ∧ old ≠ Some a.
Proof.
  rewrite to_rewire_true, not_elem_of_cons. destruct old as [o|]; unfold option_list; cbn [option_rect].
  - rewrite not_elem_of_cons. pose proof (not_elem_of_nil a).
    split; [intros (? & ? & ? & ?)|intros (? & ? & ?)]; repeat split; congruence || done.
  - pose proof (not_elem_of_nil a). intuition discriminate.
Qed.

(** The tablets after a planned reparent that committed. *)
Lemma planned_commit_tablets (c : Cluster) (old new : TabletAlias) (to tn : Tablet) :
  new ≠ old → tablets c !! old = Some to → tablets c !! new = Some tn →
  let c' := commit (Some old) spare new
              (rewire new [new; old]
                 (<[new := promoted tn]> (<[old := demoted to]> (tablets c)))) in
  tablets c' !! new = Some (set_role master (promoted tn)) ∧
  tablets c' !! old = Some (set_role spare (demoted to)) ∧
  ∀ a, a ≠ new → a ≠ old →
       tablets c' !! a = rewire_one new [new; old] a <$> tablets c !! a.
Proof.
  intros Hne Ho Hn c'. subst c'. repeat split.
  - apply commit_lookup_new; [congruence|].
    rewrite rewire_lookup, lookup_insert_eq. cbn [fmap option_fmap option_map].
    rewrite rewire_one_unchanged; [done|]. left. apply to_rewire_skipped. left.
  - rewrite commit_lookup_old by congruence.
    rewrite rewire_lookup, lookup_insert_ne, lookup_insert_eq by congruence.
    cbn [fmap option_fmap option_map]. rewrite rewire_one_unchanged; [done|].
    left. apply to_rewire_skipped. right. left.
  - intros a Han Hao. rewrite commit_lookup_other by congruence.
    by rewrite rewire_lookup, !lookup_insert_ne by congruence.
Qed.

(** The tablets after an emergency reparent that committed. *)
Lemma emergency_commit_tablets (c : Cluster) (new : TabletAlias) (tn : Tablet) :
  shard_master c ≠ Some new → tablets c !! new = Some tn →
  let skip := new :: option_list (shard_master c) in
  let c' := commit (shard_master c) scrapped new
              (rewire new skip (<[new := promoted tn]> (tablets c))) in
  tablets c' !! new = Some (set_role master (promoted tn)) ∧
  (∀ old, shard_master c = Some old →
          tablets c' !! old = set_role scrapped <$> tablets c !! old) ∧
  ∀ a, a ≠ new → shard_master c ≠ Some a →
       tablets c' !! a = rewire_one new skip a <$> tablets c !! a.
Proof.
  intros Hne Hn skip c'. subst c'. repeat split.
  - apply commit_lookup_new; [done|].
    rewrite rewire_lookup, lookup_insert_eq. cbn [fmap option_fmap option_map].
    rewrite rewire_one_unchanged; [done|]. left. apply to_rewire_skipped. left.
  - intros old Hm. rewrite Hm. rewrite commit_lookup_old by congruence.
    rewrite rewire_lookup, lookup_insert_ne by congruence.
    destruct (tablets c !! old) as [to|]; [|done].
    cbn [fmap option_fmap option_map]. rewrite rewire_one_unchanged; [done|].
    left. apply to_rewire_skipped. subst skip. rewrite Hm. right. left.
  - intros a Han Hao. rewrite commit_lookup_other by congruence.
    by rewrite rewire_lookup, lookup_insert_ne by congruence.
Qed.

(** ** The claims *)

(** C3.  A planned reparent whose demote call to the current master fails (the
    master does not answer, or in time) aborts with the DemoteMaster failure
    and leaves the whole cluster state, the committed shard record included,
    as it was.  Once the master answers again, repeating the operation goes
    through (the new master and the other tablets of the shard answering) and
    commits the new master. *)
Theorem planned_reparent_demote_failure (c : Cluster) (old new : TabletAlias) :
  shard_master c = Some old → new ≠ old →
  tablets c !! old ≫= demote_master = None →
  planned_reparent new c = (c, aborted (DemoteMasterFailed old)) ∧
  (∀ tn, is_Some (tablets c !! old) →
     tablets c !! new = Some tn → reachable tn = true →
     (∀ a t, tablets c !! a = Some t → a ≠ old → in_shard t = true →
             reachable t = true) →
     exit_ok (planned_reparent new (start_mysql old (planned_reparent new c).1)).2 = true ∧
     shard_master (planned_reparent new (start_mysql old (planned_reparent new c).1)).1 = Some new).
Proof.
  intros Hm Hne Hd.
  assert (planned_reparent new c = (c, aborted (DemoteMasterFailed old))) as Hp.
  { unfold planned_reparent. rewrite Hm, bool_decide_eq_false_2 by done.
    by rewrite Hd. }
  split; [done|]. intros tn [to Ho] Hn Hrn Hall. rewrite Hp. cbn [fst].
  erewrite (planned_reparent_commits (start_mysql old c) old new
              (set_reachable true to) tn); try done.
  - cbn [fst snd]. split; [|done]. apply rewire_report_ok, rewire_failures_nil.
    intros a t Ha Hr. apply to_rewire_planned in Hr as (Hin & Han & Hao).
    rewrite !lookup_insert_ne in Ha by congruence.
    unfold start_mysql in Ha. cbn [tablets with_tablets] in Ha.
    rewrite lookup_alter_ne in Ha by congruence. eauto.
  - unfold start_mysql. cbn [tablets with_tablets].
    by rewrite lookup_alter_eq, Ho.
  - unfold start_mysql. cbn [tablets with_tablets].
    by rewrite lookup_alter_ne by congruence.
Qed.

(** C4, amended.  After a planned or emergency reparent that reports success
    on a shard with at most one master, the shard record names the new master,
    the new master is the one tablet with the master role, and every other
    tablet of the shard (not scrapped) that is not a spare and is not
    enumerated among the failed replicas replicates from it.  An emergency
    reparent reports success, and commits the new master, whenever the new
    master answers: nothing is asked of the old master, which may be powered
    off. *)
Theorem reparent_success_single_master (c : Cluster) (new : TabletAlias) :
  (∀ c' r, master_invariant c →
     planned_reparent new c = (c', r) ∨ emergency_reparent new c = (c', r) →
     success r = true →
     shard_master c' = Some new ∧
     (∃ t, tablets c' !! new = Some t ∧ role t = master) ∧
     (∀ a t, tablets c' !! a = Some t → role t = master → a = new) ∧
     (∀ a t, tablets c' !! a = Some t → a ≠ new →
             in_shard t = true → role t ≠ spare →
             a ∉ failed_replicas r →
             replication_target t = Some new)) ∧
  (∀ old tn, shard_master c = Some old → old ≠ new →
     tablets c !! new = Some tn → reachable tn = true →
     success (emergency_reparent new c).2 = true ∧
     shard_master (emergency_reparent new c).1 = Some new ∧
     ∃ t, tablets (emergency_reparent new c).1 !! new = Some t ∧ role t = master).
Proof.
  split.
  - intros c' r Hinv [Hp|He] Hok.
    + assert (success (planned_reparent new c).2 = true) as Hok' by by rewrite Hp.
      destruct (planned_reparent_ok_inv c new Hok')
        as (old & to & tn & Hm & Hne & Ho & Hro & Hn & Hrn).
      rewrite (planned_reparent_commits c old new to tn) in Hp by done.
      injection Hp as <- <-.
      destruct (planned_commit_tablets c old new to tn Hne Ho Hn) as (Tn & To & Tx).
      split; [done|]. split; [by eexists|]. split.
      * intros a t Ha Hr. destruct (decide (a = new)) as [|Han]; [done|].
        destruct (decide (a = old)) as [->|Hao].
        { rewrite To in Ha. by injection Ha as <-. }
        rewrite Tx in Ha by done.
        destruct (tablets c !! a) as [t0|] eqn:Ha0; [|done].
        injection Ha as <-. rewrite (proj1 (rewire_one_role _ _ _ _)) in Hr.
        pose proof (Hinv a t0 Ha0 Hr). congruence.
      * intros a t Ha Han Hin Hsp Hnf. destruct (decide (a = old)) as [->|Hao].
        { rewrite To in Ha. by injection Ha as <-. }
        rewrite Tx in Ha by done.
        destruct (tablets c !! a) as [t0|] eqn:Ha0; [|done].
        injection Ha as <-.
        apply in_shard_role in Hin. rewrite (proj1 (rewire_one_role _ _ _ _)) in Hin.
        cbn [rewire_report failed_replicas] in Hnf.
        eapply rewired_unless_failed; [|by apply to_rewire_planned, conj, conj;
                                         [apply in_shard_role| |]|exact Hnf].
        by rewrite !lookup_insert_ne by congruence.
    + assert (success (emergency_reparent new c).2 = true) as Hok' by by rewrite He.
      destruct (emergency_reparent_ok_inv c new Hok') as (tn & Hne & Hn & Hrn).
      rewrite (emergency_reparent_commits c new tn) in He by done.
      injection He as <- <-.
      destruct (emergency_commit_tablets c new tn Hne Hn) as (Tn & To & Tx).
      split; [done|]. split; [by eexists|]. split.
      * intros a t Ha Hr. destruct (decide (a = new)) as [|Han]; [done|].
        destruct (decide (shard_master c = Some a)) as [Hma|Hma].
        { rewrite (To a Hma) in Ha. destruct (tablets c !! a); [|done].
          by injection Ha as <-. }
        rewrite Tx in Ha by done.
        destruct (tablets c !! a) as [t0|] eqn:Ha0; [|done].
        injection Ha as <-. rewrite (proj1 (rewire_one_role _ _ _ _)) in Hr.
        by pose proof (Hinv a t0 Ha0 Hr).
      * intros a t Ha Han Hin Hsp Hnf.
        destruct (decide (shard_master c = Some a)) as [Hma|Hma].
        { rewrite (To a Hma) in Ha. destruct (tablets c !! a); [|done].
          by injection Ha as <-. }
        rewrite Tx in Ha by done.
        destruct (tablets c !! a) as [t0|] eqn:Ha0; [|done].
        injection Ha as <-.
        apply in_shard_role in Hin. rewrite (proj1 (rewire_one_role _ _ _ _)) in Hin.
        cbn [rewire_report failed_replicas] in Hnf.
        eapply rewired_unless_failed; [|by apply to_rewire_emergency, conj, conj;
                                         [apply in_shard_role| |]|exact Hnf].
        by rewrite lookup_insert_ne by congruence.
  - intros old tn Hm Hne Hn Hrn.
    assert (shard_master c ≠ Some new) as Hmn by (rewrite Hm; congruence).
    destruct (emergency_commit_tablets c new tn Hmn Hn) as (Tn & _).
    rewrite (emergency_reparent_commits c new tn) by done.
    cbn [fst snd]. split; [done|]. split; [done|]. by eexists.
Qed.

(** ** The master invariant *)

(** Both operations keep the invariant, whether they commit or abort. *)
Lemma planned_reparent_invariant (c : Cluster) (new : TabletAlias) :
  master_invariant c → master_invariant (planned_reparent new c).1.
Proof.
  intros Hinv. unfold planned_reparent.
  destruct (shard_master c) as [old|] eqn:Hm; [|done].
  case_bool_decide as Hne; [done|].
  destruct (tablets c !! old) as [to|] eqn:Ho; [|done]. cbn [mbind option_bind].
  unfold demote_master. destruct (reachable to) eqn:Hro; [|done].
  rewrite lookup_insert_ne by congruence.
  destruct (tablets c !! new) as [tn|] eqn:Hn; cbn [mbind option_bind].
  - unfold promote_slave. destruct (reachable tn) eqn:Hrn; cbn [fst].
    + destruct (planned_commit_tablets c old new to tn Hne Ho Hn) as (Tn & To & Tx).
      intros a t Ha Hr. cbn [shard_master commit].
      destruct (decide (a = new)) as [->|Han]; [done|].
      destruct (decide (a = old)) as [->|Hao].
      { rewrite To in Ha. by injection Ha as <-. }
      rewrite Tx in Ha by done.
      destruct (tablets c !! a) as [t0|] eqn:Ha0; [|done]. injection Ha as <-.
      rewrite (proj1 (rewire_one_role _ _ _ _)) in Hr.
      pose proof (Hinv a t0 Ha0 Hr). congruence.
    + intros a t Ha Hr. cbn [with_tablets tablets shard_master] in *.
      destruct (decide (a = old)) as [->|Hao]; [done|].
      rewrite lookup_insert_ne in Ha by congruence. eauto.
  - intros a t Ha Hr. cbn [fst with_tablets tablets shard_master] in *.
    destruct (decide (a = old)) as [->|Hao]; [done|].
    rewrite lookup_insert_ne in Ha by congruence. eauto.
Qed.

Lemma emergency_reparent_invariant (c : Cluster) (new : TabletAlias) :
  master_invariant c → master_invariant (emergency_reparent new c).1.
Proof.
  intros Hinv. unfold emergency_reparent. case_bool_decide as Hne; [done|].
  destruct (tablets c !! new) as [tn|] eqn:Hn; [|done]. cbn [mbind option_bind].
  unfold promote_slave. destruct (reachable tn) eqn:Hrn; [|done]. cbn [fst].
  destruct (emergency_commit_tablets c new tn Hne Hn) as (Tn & To & Tx).
  intros a t Ha Hr. cbn [shard_master commit].
  destruct (decide (a = new)) as [->|Han]; [done|].
  destruct (decide (shard_master c = Some a)) as [Hma|Hma].
  { rewrite (To a Hma) in Ha. destruct (tablets c !! a); [|done].
    by injection Ha as <-. }
  rewrite Tx in Ha by done.
  destruct (tablets c !! a) as [t0|] eqn:Ha0; [|done]. injection Ha as <-.
  rewrite (proj1 (rewire_one_role _ _ _ _)) in Hr.
  by pose proof (Hinv a t0 Ha0 Hr).
Qed.

(** ** What is reported *)

Lemma stderr_rewire_report (failed : list TabletAlias) (a : TabletAlias) :
  SetMasterError a ∈ stderr (rewire_report failed) ↔ a ∈ failed.
Proof.
  unfold rewire_report. cbn [stderr]. rewrite list_elem_of_fmap. split.
  - by intros (b & [= ->] & Hb).
  - intros Ha. by exists a.
Qed.

(** The command that goes with a rewire failure exits with failure, though the
    operation reports success. *)
Lemma rewire_report_failed (failed : list TabletAlias) (a : TabletAlias) :
  a ∈ failed →
  success (rewire_report failed) = true ∧ exit_ok (rewire_report failed) = false.
Proof.
  intros Ha. split; [done|]. unfold rewire_report, exit_ok.
  cbn [success failed_replicas andb]. apply bool_decide_eq_false.
  intros ->. by apply elem_of_nil in Ha.
Qed.

(** The tablets whose rewire fails in a planned and in an emergency
    reparent. *)
Lemma planned_rewire_failures (c : Cluster) (old new a : TabletAlias)
    (to tn : Tablet) :
  a ∈ rewire_failures [new; old]
        (<[new := promoted tn]> (<[old := demoted to]> (tablets c))) ↔
  ∃ t, tablets c !! a = Some t ∧ a ≠ new ∧ a ≠ old ∧
       in_shard t = true ∧ reachable t = false.
Proof.
  rewrite rewire_failures_spec. split.
  - intros (t & Ht & Hr & Hu). apply to_rewire_planned in Hr as (Hin & Han & Hao).
    rewrite !lookup_insert_ne in Ht by congruence. eauto 10.
  - intros (t & Ht & Han & Hao & Hin & Hu).
    exists t. rewrite !lookup_insert_ne by congruence.
    repeat split; try done. by apply to_rewire_planned.
Qed.

Lemma emergency_rewire_failures (c : Cluster) (old new a : TabletAlias)
    (tn : Tablet) :
  a ∈ rewire_failures (new :: option_list (Some old))
        (<[new := promoted tn]> (tablets c)) ↔
  ∃ t, tablets c !! a = Some t ∧ a ≠ new ∧ a ≠ old ∧
       in_shard t = true ∧ reachable t = false.
Proof.
  rewrite rewire_failures_spec. split.
  - intros (t & Ht & Hr & Hu). apply to_rewire_emergency in Hr as (Hin & Han & Hao).
    rewrite lookup_insert_ne in Ht by congruence.
    exists t. repeat split; try done. congruence.
  - intros (t & Ht & Han & Hao & Hin & Hu).
    exists t. rewrite lookup_insert_ne by congruence.
    repeat split; try done. apply to_rewire_emergency. repeat split; congruence || done.
Qed.

(** C5.  When the demote and promote calls succeed and the rewiring of some
    replica of the shard fails, a planned reparent still commits the
    mastership change, the shard record names the new master and the new
    master holds the master role, and reports overall success; the report
    enumerates exactly the replicas whose rewiring failed, and the replicas
    that answer are rewired.  The same holds for an emergency reparent, which
    has no demote call. *)
Theorem rewire_failure_reports_success (c : Cluster) (old new bad : TabletAlias)
    (tn tb : Tablet) :
  shard_master c = Some old → new ≠ old →
  tablets c !! new = Some tn → reachable tn = true →
  tablets c !! bad = Some tb → bad ≠ new → bad ≠ old →
  in_shard tb = true → reachable tb = false →
  (∀ to, tablets c !! old = Some to → reachable to = true →
     shard_master (planned_reparent new c).1 = Some new ∧
     (∃ t, tablets (planned_reparent new c).1 !! new = Some t ∧ role t = master) ∧
     success (planned_reparent new c).2 = true ∧
     bad ∈ failed_replicas (planned_reparent new c).2 ∧
     (∀ a, a ∈ failed_replicas (planned_reparent new c).2 ↔
           ∃ t, tablets c !! a = Some t ∧ a ≠ new ∧ a ≠ old ∧
                in_shard t = true ∧ reachable t = false) ∧
     (∀ a t, tablets c !! a = Some t → a ≠ new → a ≠ old →
             in_shard t = true → reachable t = true →
             ∃ t', tablets (planned_reparent new c).1 !! a = Some t' ∧
                   replication_target t' = Some new)) ∧
  (shard_master (emergency_reparent new c).1 = Some new ∧
   (∃ t, tablets (emergency_reparent new c).1 !! new = Some t ∧ role t = master) ∧
   success (emergency_reparent new c).2 = true ∧
   bad ∈ failed_replicas (emergency_reparent new c).2 ∧
   (∀ a, a ∈ failed_replicas (emergency_reparent new c).2 ↔
         ∃ t, tablets c !! a = Some t ∧ a ≠ new ∧ a ≠ old ∧
              in_shard t = true ∧ reachable t = false) ∧
   (∀ a t, tablets c !! a = Some t → a ≠ new → a ≠ old →
           in_shard t = true → reachable t = true →
           ∃ t', tablets (emergency_reparent new c).1 !! a = Some t' ∧
                 replication_target t' = Some new)).
Proof.
  intros Hm Hne Hn Hrn Hb Hbn Hbo Hbin Hbr. split.
  - intros to Ho Hro.
    destruct (planned_commit_tablets c old new to tn Hne Ho Hn) as (Tn & To & Tx).
    rewrite (planned_reparent_commits c old new to tn) by done.
    cbn [fst snd rewire_report success failed_replicas].
    split; [done|]. split; [by eexists|]. split; [done|]. split; [|split].
    + apply planned_rewire_failures. eauto 10.
    + intros a. apply planned_rewire_failures.
    + intros a t Ha Han Hao Hin Hr.
      rewrite Tx, Ha by done. eexists. split; [done|].
      apply rewire_one_target; [|done]. by apply to_rewire_planned.
  - assert (shard_master c ≠ Some new) as Hmn by (rewrite Hm; congruence).
    destruct (emergency_commit_tablets c new tn Hmn Hn) as (Tn & To & Tx).
    rewrite (emergency_reparent_commits c new tn) by done.
    cbn [fst snd rewire_report success failed_replicas].
    rewrite Hm in *.
    split; [done|]. split; [by eexists|]. split; [done|]. split; [|split].
    + apply emergency_rewire_failures. eauto 10.
    + intros a. apply emergency_rewire_failures.
    + intros a t Ha Han Hao Hin Hr.
      rewrite Tx, Ha by congruence. eexists. split; [done|].
      apply rewire_one_target; [|done].
      apply to_rewire_emergency. repeat split; congruence || done.
Qed.

(** ** The script *)

(** The model goes through the two scenarios of the script as the script
    expects: the command of the planned reparent with a tablet down exits
    with failure and names the tablet. *)
Lemma test_reparent_down_master_passes : test_reparent_down_master = true.
Proof. vm_compute. reflexivity. Qed.

Lemma test_reparent_with_down_slave_passes : test_reparent_with_down_slave = true.
Proof. vm_compute. reflexivity. Qed.

Lemma down_replica_invariant : master_invariant down_replica.
Proof. apply (bool_decide_unpack _). vm_compute. exact I. Qed.

(** C4, as stated, fails on the shard of the script with 41983 a replica whose
    database is down: the planned and the emergency reparent to 62044 both
    report success and commit 62044, while the replica 41983, which is not a
    spare, still replicates from 62344. *)
Lemma reparent_success_replica_on_old_master :
  let c := down_replica in
  master_invariant c ∧
  (success (planned_reparent tablet_62044 c).2 = true ∧
   shard_master (planned_reparent tablet_62044 c).1 = Some tablet_62044 ∧
   tablets (planned_reparent tablet_62044 c).1 !! tablet_41983 =
     Some (mkTablet replica false false (Some tablet_62344))) ∧
  (success (emergency_reparent tablet_62044 c).2 = true ∧
   shard_master (emergency_reparent tablet_62044 c).1 = Some tablet_62044 ∧
   tablets (emergency_reparent tablet_62044 c).1 !! tablet_41983 =
     Some (mkTablet replica false false (Some tablet_62344))).
Proof. split; [exact down_replica_invariant|]. vm_compute. by repeat split. Qed.

(** ** The properties on the scenarios of the script *)

Lemma planned_reparent_demote_failure_witness :
  planned_reparent tablet_62044 down_master =
    (down_master, aborted (DemoteMasterFailed tablet_62344)) ∧
  exit_ok (planned_reparent tablet_62044
             (start_mysql tablet_62344
                (planned_reparent tablet_62044 down_master).1)).2 = true.
Proof.
  destruct (planned_reparent_demote_failure down_master tablet_62344 tablet_62044)
    as [H1 H2]; [reflexivity|discriminate|reflexivity|].
  split; [exact H1|].
  refine (proj1 (H2 (mkTablet replica true false (Some tablet_62344)) _ _ _ _));
    [by eexists|reflexivity|reflexivity|].
  apply (bool_decide_unpack _). vm_compute. exact I.
Defined.

Lemma down_master_scrapped_invariant :
  master_invariant (scrap tablet_62344 down_master).
Proof. apply (bool_decide_unpack _). vm_compute. exact I. Qed.

Lemma reparent_success_single_master_witness :
  shard_master (emergency_reparent tablet_62044 (scrap tablet_62344 down_master)).1 =
    Some tablet_62044 ∧
  success (emergency_reparent tablet_62044 (scrap tablet_62344 down_master)).2 = true.
Proof.
  destruct (reparent_success_single_master (scrap tablet_62344 down_master)
              tablet_62044) as [H1 H2].
  split.
  - refine (proj1 (H1 _ _ down_master_scrapped_invariant
                     (or_intror (surjective_pairing _)) _)).
    reflexivity.
  - refine (proj1 (H2 tablet_62344 (mkTablet replica true false (Some tablet_62344))
                     _ _ _ _)); try reflexivity. discriminate.
Defined.

Lemma rewire_failure_reports_success_witness :
  shard_master (planned_reparent tablet_62044 down_slave).1 = Some tablet_62044 ∧
  success (planned_reparent tablet_62044 down_slave).2 = true ∧
  tablet_41983 ∈ failed_replicas (planned_reparent tablet_62044 down_slave).2.
Proof.
  destruct (rewire_failure_reports_success down_slave tablet_62344 tablet_62044
              tablet_41983 (mkTablet replica true false (Some tablet_62344))
              (mkTablet spare false false (Some tablet_62344)))
    as [H _]; try reflexivity; try discriminate.
  destruct (H (mkTablet master true true None)) as (H1 & _ & H2 & H3 & _);
    try reflexivity.
  split; [|split]; assumption.
Defined.

End ReparentProperties.

(** * Further properties of the keyspace model *)

Section PackedKeys.

(** What [pack_keyspace_id] returns on an integer. *)
Lemma pack_keyspace_id_OK (k : Z) (p : string) :
  pack_keyspace_id (VInt k) = OK p → 0 ≤ k < 2 ^ 64 ∧ p = pack_Q k.
Proof.
  unfold pack_keyspace_id, struct_pack_Q. cbn [index_of].
  destruct ((0 <=? k) && (k <? 2 ^ 64)) eqn:H; [|done].
  apply andb_true_iff in H as [H1%Z.leb_le H2%Z.ltb_lt]. by intros [= <-].
Qed.

(** X1.  Packing keeps the order of the keys: the packed forms of two keys
    are eight bytes each and compare, byte-wise, as the keys do; so two keys
    with the same packed form are the same key. *)
Theorem pack_keyspace_id_order (a b : Z) (pa pb : string) :
  pack_keyspace_id (VInt a) = OK pa →
  pack_keyspace_id (VInt b) = OK pb →
  String.length pa = 8%nat ∧
  (pa <? pb)%string = (a <? b) ∧
  (pa <=? pb)%string = (a <=? b) ∧
  (pa = pb ↔ a = b).
Proof.
  intros [Ha ->]%pack_keyspace_id_OK [Hb ->]%pack_keyspace_id_OK.
  pose proof (pack_Q_compare a b Ha Hb) as Hc.
  split; [done|]. unfold String.ltb, String.leb, Z.ltb, Z.leb. rewrite Hc.
  repeat split; try done.
  - intros Heq. rewrite Heq, string_compare_refl in Hc.
    symmetry in Hc. by apply Z.compare_eq_iff in Hc.
  - by intros ->.
Qed.

Lemma string_leb_cons (a b : ascii) (s t : string) :
  (String a s <=? String b t)%string =
  match Ascii.compare a b with
  | Eq => (s <=? t)%string
  | Lt => true
  | Gt => false
  end.
Proof.
  unfold String.leb. cbn [String.compare]. by destruct (Ascii.compare a b).
Qed.

Lemma zeros_length (n : nat) : String.length (zeros n) = n.
Proof. induction n as [|n IH]; [done|]. cbn [zeros String.length]. by rewrite IH. Qed.

(** Zero bytes are below every string of their length. *)
Lemma zeros_least (t : string) : (zeros (String.length t) <=? t)%string = true.
Proof.
  induction t as [|c t IH]; [done|]. cbn [String.length zeros].
  rewrite string_leb_cons. unfold Ascii.compare.
  change (N_of_ascii "000") with 0%N.
  destruct (N.compare_spec 0 (N_of_ascii c)) as [?|?|?]; [done|done|lia].
Qed.

(** Against a string at least as long, a bound compares as the bound filled up
    with zero bytes does. *)
Lemma string_leb_zero_pad (s t : string) :
  (String.length s ≤ String.length t)%nat →
  (s <=? t)%string =
  (String.append s (zeros (String.length t - String.length s)) <=? t)%string.
Proof.
  revert t. induction s as [|a s IH]; intros t Hlen.
  - cbn [String.length]. rewrite Nat.sub_0_r.
    change (String.append EmptyString (zeros (String.length t)))
      with (zeros (String.length t)).
    rewrite zeros_least. by destruct t.
  - destruct t as [|b t]; cbn [String.length] in *; [lia|].
    change (String.append (String a s) ?x) with (String a (String.append s x)).
    rewrite !string_leb_cons.
    destruct (Ascii.compare a b); try done.
    rewrite Nat.sub_succ. apply IH. lia.
Qed.

Lemma pad8_length (s : string) :
  (String.length s ≤ 8)%nat → String.length (pad8 s) = 8%nat.
Proof.
  intros H. unfold pad8.
  assert (∀ u v, String.length (String.append u v) =
                 (String.length u + String.length v)%nat) as Happ.
  { induction u as [|c u IH]; intros v; [done|].
    change (String.append (String c u) v) with (String c (String.append u v)).
    cbn [String.length]. by rewrite IH. }
  rewrite Happ, zeros_length. lia.
Qed.

(** A bound of at most eight bytes is below a packed key exactly when the
    number it spells, filled up with zero bytes, is. *)
Lemma bound_le_packed (s : string) (k : Z) :
  (String.length s ≤ 8)%nat → 0 ≤ k < 2 ^ 64 →
  (s <=? pack_Q k)%string = (bound_key s <=? k).
Proof.
  intros Hs Hk. destruct (pack_Q_big_endian k Hk) as [Hlen Hbe].
  rewrite (string_leb_zero_pad s (pack_Q k)) by (rewrite Hlen; lia).
  rewrite Hlen. fold (pad8 s). unfold String.leb, Z.leb, bound_key.
  rewrite string_compare_unpack by (by rewrite pad8_length, Hlen).
  by rewrite Hbe.
Qed.

Lemma packed_lt_bound (s : string) (k : Z) :
  (String.length s ≤ 8)%nat → 0 ≤ k < 2 ^ 64 →
  (pack_Q k <? s)%string = (k <? bound_key s).
Proof.
  intros Hs Hk. rewrite string_ltb_leb, bound_le_packed by done.
  by rewrite Z.ltb_antisym.
Qed.

End PackedKeys.

Section KeyspaceExtras.

Variable MAX_KEY : string.
Variable KIT_UNSET : value.

(** ** Key ranges as ranges of keys *)

(** X2.  With bounds of at most eight bytes, [_shard_contain_kid] holds for the
    packed form of key [k] exactly when [k] is at least the number the start
    spells and, unless the end is the sentinel, below the number the end
    spells (each bound filled up with zero bytes to eight). *)
Theorem shard_contain_kid_numeric (k : Z) (pkid start end_ : string) :
  pack_keyspace_id (VInt k) = OK pkid →
  (String.length start ≤ 8)%nat → (String.length end_ ≤ 8)%nat →
  _shard_contain_kid MAX_KEY pkid (VStr start) (VStr end_) =
  (bound_key start <=? k) &&
  ((end_ =? MAX_KEY)%string || (k <? bound_key end_)).
Proof.
  intros [Hk ->]%pack_keyspace_id_OK Hs He.
  unfold _shard_contain_kid. cbn [le_str eq_str str_lt].
  by rewrite bound_le_packed, packed_lt_bound.
Qed.

(** ** Failures of the look-ups *)

Lemma getitem_raises (c k : value) (e : exn) :
  getitem c k = Raise e → e = KeyError k ∨ e = TypeError ∨ e = IndexError.
Proof.
  unfold getitem. intros H.
  repeat match type of H with
         | context [match ?x with _ => _ end] => destruct x
         end; try discriminate; injection H as <-; auto.
Qed.

(** X3.  [get_shards] never lets a [KeyError] out: it fails with the
    [ValueError] of an unset role, exactly when the role is unset, and
    otherwise only with the [TypeError] or [IndexError] of a record that is
    not made of dictionaries. *)
Theorem get_shards_failures (ks : Keyspace) (db_type : value) (e : exn) :
  get_shards ks db_type = Raise e →
  is_KeyError e = false ∧
  (truthy db_type = false → e = ValueError db_type_is_not_set) ∧
  (truthy db_type = true → e = TypeError ∨ e = IndexError).
Proof.
  unfold get_shards. destruct (truthy db_type); cbn [negb].
  - destruct (getitem (partitions ks) db_type) as [p|e1] eqn:H1;
      cbn [mbind result_bind].
    + destruct (getitem p (VStr "ShardReferences")) as [v|e2] eqn:H2; [done|].
      apply getitem_raises in H2 as [->|[->| ->]]; cbn [is_KeyError];
        intros H; try discriminate H; injection H as <-;
        (split; [done|split; [done|auto]]).
    + apply getitem_raises in H1 as [->|[->| ->]]; cbn [is_KeyError];
        intros H; try discriminate H; injection H as <-;
        (split; [done|split; [done|auto]]).
  - intros [= <-]. split; [done|split; [auto|done]].
Qed.

(** ** Counting and naming the shards *)

Lemma shard_names_length (l ns : list value) :
  shard_names l = OK ns → length ns = length l.
Proof.
  revert ns. induction l as [|shard l IH]; intros ns; cbn [shard_names].
  - by intros [= <-].
  - destruct (getitem shard (VStr "Name")) as [n|]; [|done].
    cbn [mbind result_bind].
    destruct (shard_names l) as [ns'|]; [|done]. cbn [mbind result_bind].
    intros [= <-]. cbn [length]. by rewrite (IH ns').
Qed.

Lemma chars_length (s : string) : length (chars s) = String.length s.
Proof. induction s as [|c s IH]; [done|]. cbn [chars length String.length]. by rewrite IH. Qed.

Lemma iter_length (c : value) (l : list value) :
  iter c = OK l → len c = OK (VInt (Z.of_nat (length l))).
Proof.
  destruct c as [| | |s|l'|d]; cbn [iter len]; try done; intros [= <-].
  - by rewrite chars_length.
  - done.
  - by rewrite !length_fmap, length_map_to_list.
Qed.

(** X4.  Whenever [get_shard_names] returns, it returns a list, and
    [get_shard_count] returns the length of that list. *)
Theorem shard_names_count (ks : Keyspace) (db_type v : value) :
  get_shard_names ks db_type = OK v →
  ∃ ns, v = VList ns ∧
        get_shard_count ks db_type = OK (VInt (Z.of_nat (length ns))).
Proof.
  unfold get_shard_names, get_shard_count.
  destruct (truthy db_type); cbn [negb]; [|done].
  destruct (get_shards ks db_type) as [shards|]; [|done]. cbn [mbind result_bind].
  destruct (iter shards) as [l|] eqn:Hi; [|done]. cbn [mbind result_bind].
  destruct (shard_names l) as [ns|] eqn:Hn; [|done]. cbn [mbind result_bind].
  intros [= <-]. exists ns. split; [done|].
  rewrite (shard_names_length _ _ Hn). by apply iter_length.
Qed.

Lemma shard_names_stored (refs : list ShardReference) :
  shard_names (shard_reference <$> refs) = OK (VStr ∘ Name <$> refs).
Proof.
  induction refs as [|s refs IH]; [done|].
  cbn [fmap list_fmap shard_names].
  change (getitem (shard_reference s) (VStr "Name")) with (OK (VStr (Name s))).
  cbn [mbind result_bind]. fold (@fmap list _ _ _ shard_reference refs).
  rewrite IH. done.
Qed.

(** X5.  For a role with stored shard references, [get_shard_count] is their
    number and [get_shard_names] lists their names in stored order. *)
Theorem shard_names_of_stored (ks : Keyspace) (db_type : value)
    (refs : list ShardReference) :
  get_shards ks db_type = OK (VList (shard_reference <$> refs)) →
  get_shard_count ks db_type = OK (VInt (Z.of_nat (length refs))) ∧
  get_shard_names ks db_type = OK (VList (VStr ∘ Name <$> refs)).
Proof.
  intros Hs. unfold get_shard_count, get_shard_names.
  assert (truthy db_type = true) as ->.
  { unfold get_shards in Hs. by destruct (truthy db_type). }
  cbn [negb]. rewrite Hs. cbn [mbind result_bind len iter].
  rewrite length_fmap, shard_names_stored. done.
Qed.

(** ** What the scan returns *)

(** The walk of [keyspace_id_to_shard_name_for_db_type] over any stored
    list. *)
Lemma resolve_shard_scan (ks : Keyspace) (k : Z) (db_type : value)
    (l : list value) :
  0 < k < 2 ^ 64 →
  get_shards ks db_type = OK (VList l) →
  keyspace_id_to_shard_name_for_db_type MAX_KEY ks (VInt k) db_type =
  match scan_shards MAX_KEY (pack_Q k) l with
  | OK (Some n) => OK n
  | OK None => Raise (ValueError (cannot_find_shard (VInt k) (VList l)))
  | Raise e => Raise e
  end.
Proof.
  intros Hk Hs. unfold keyspace_id_to_shard_name_for_db_type.
  assert (truthy (VInt k) = true) as ->.
  { simpl. destruct (Z.eqb_spec k 0); [lia|done]. }
  assert (truthy db_type = true) as ->.
  { unfold get_shards in Hs. by destruct (truthy db_type). }
  cbn [negb]. rewrite pack_keyspace_id_in_range by lia.
  cbn [mbind result_bind]. rewrite Hs. cbn [mbind result_bind iter].
  by destruct (scan_shards MAX_KEY (pack_Q k) l) as [[n|]|].
Qed.

Lemma scan_shards_sound (pkid : string) (l : list value) (n : value) :
  scan_shards MAX_KEY pkid l = OK (Some n) →
  ∃ shard kr start end_,
    shard ∈ l ∧
    getitem shard (VStr "KeyRange") = OK kr ∧
    getitem kr (VStr "Start") = OK start ∧
    getitem kr (VStr "End") = OK end_ ∧
    _shard_contain_kid MAX_KEY pkid start end_ = true ∧
    getitem shard (VStr "Name") = OK n.
Proof.
  induction l as [|shard l IH]; [done|]. cbn [scan_shards].
  destruct (getitem shard (VStr "KeyRange")) as [kr|] eqn:Hkr; [|done].
  cbn [mbind result_bind].
  destruct (getitem kr (VStr "Start")) as [start|] eqn:Hst; [|done].
  destruct (getitem kr (VStr "End")) as [end_|] eqn:Hen; [|done].
  cbn [mbind result_bind].
  destruct (_shard_contain_kid MAX_KEY pkid start end_) eqn:Hc.
  - destruct (getitem shard (VStr "Name")) as [n'|] eqn:Hn; [|done].
    cbn [mbind result_bind]. intros [= <-].
    exists shard, kr, start, end_. repeat split; try done. left.
  - intros H. destruct (IH H) as (shard' & kr' & start' & end' & Hin & H').
    exists shard', kr', start', end'. split; [by right|done].
Qed.

(** X6.  A shard name that [keyspace_id_to_shard_name_for_db_type] returns is
    the ['Name'] of one of the records stored for the role, and the key range
    of that record contains the packed key: no name is made up and no shard
    is returned whose range does not hold the key. *)
Theorem resolve_shard_sound (ks : Keyspace) (keyspace_id db_type n : value) :
  keyspace_id_to_shard_name_for_db_type MAX_KEY ks keyspace_id db_type = OK n →
  ∃ pkid shards l shard kr start end_,
    pack_keyspace_id keyspace_id = OK pkid ∧
    get_shards ks db_type = OK shards ∧
    iter shards = OK l ∧
    shard ∈ l ∧
    getitem shard (VStr "KeyRange") = OK kr ∧
    getitem kr (VStr "Start") = OK start ∧
    getitem kr (VStr "End") = OK end_ ∧
    _shard_contain_kid MAX_KEY pkid start end_ = true ∧
    getitem shard (VStr "Name") = OK n.
Proof.
  unfold keyspace_id_to_shard_name_for_db_type.
  destruct (truthy keyspace_id); cbn [negb]; [|done].
  destruct (truthy db_type); cbn [negb]; [|done].
  destruct (pack_keyspace_id keyspace_id) as [pkid|] eqn:Hp; [|done].
  cbn [mbind result_bind].
  destruct (get_shards ks db_type) as [shards|] eqn:Hs; [|done].
  cbn [mbind result_bind].
  destruct (iter shards) as [l|] eqn:Hi; [|done]. cbn [mbind result_bind].
  destruct (scan_shards MAX_KEY pkid l) as [[n'|]|] eqn:Hscan; try done.
  cbn [mbind result_bind]. intros [= <-].
  destruct (scan_shards_sound _ _ _ Hscan)
    as (shard & kr & start & end_ & ? & ? & ? & ? & ? & ?).
  exists pkid, shards, l, shard, kr, start, end_. by repeat split.
Qed.

Lemma scan_shards_app_found (pkid : string) (refs : list ShardReference)
    (rest : list value) (s : ShardReference) :
  find (contains MAX_KEY pkid) refs = Some s →
  scan_shards MAX_KEY pkid ((shard_reference <$> refs) ++ rest) =
  OK (Some (VStr (Name s))).
Proof.
  induction refs as [|s0 refs IH]; [done|].
  cbn [fmap list_fmap find app]. cbn [scan_shards].
  change (getitem (shard_reference s0) (VStr "KeyRange"))
    with (OK (VDict {[ "Start" := VStr (Start s0); "End" := VStr (End s0) ]})).
  change (getitem (shard_reference s0) (VStr "Name")) with (OK (VStr (Name s0))).
  cbn [mbind result_bind].
  change (getitem (VDict {[ "Start" := VStr (Start s0); "End" := VStr (End s0) ]})
            (VStr "Start")) with (OK (VStr (Start s0))).
  change (getitem (VDict {[ "Start" := VStr (Start s0); "End" := VStr (End s0) ]})
            (VStr "End")) with (OK (VStr (End s0))).
  cbn [mbind result_bind].
  change (_shard_contain_kid MAX_KEY pkid (VStr (Start s0)) (VStr (End s0)))
    with (contains MAX_KEY pkid s0).
  destruct (contains MAX_KEY pkid s0); [by intros [= ->]|]. apply IH.
Qed.

(** X7.  The scan stops at the first match: whatever is stored after the first
    shard reference whose range holds the key, well formed or not, is never
    looked at and does not change the answer. *)
Theorem resolve_shard_ignores_rest (ks : Keyspace) (db_type : value) (k : Z)
    (refs : list ShardReference) (rest : list value) (s : ShardReference) :
  0 < k < 2 ^ 64 →
  get_shards ks db_type = OK (VList ((shard_reference <$> refs) ++ rest)) →
  find (contains MAX_KEY (pack_Q k)) refs = Some s →
  keyspace_id_to_shard_name_for_db_type MAX_KEY ks (VInt k) db_type =
  OK (VStr (Name s)).
Proof.
  intros Hk Hs Hf. rewrite (resolve_shard_scan ks k db_type _ Hk Hs).
  by rewrite (scan_shards_app_found _ _ rest _ Hf).
Qed.

(** X8.  Among the values modelled here (None, booleans, integers, byte
    strings, lists and dictionaries; floats and objects that convert through
    [__int__] are not among them), a key is resolved only if it is an integer
    (or [True]) from 1 to 2^64 - 1: no other of these values ever yields a
    shard name. *)
Theorem resolve_shard_integer_keys (ks : Keyspace) (keyspace_id db_type n : value) :
  keyspace_id_to_shard_name_for_db_type MAX_KEY ks keyspace_id db_type = OK n →
  ∃ z, index_of keyspace_id = Some z ∧ 1 ≤ z < 2 ^ 64.
Proof.
  unfold keyspace_id_to_shard_name_for_db_type.
  destruct (truthy keyspace_id) eqn:Ht; cbn [negb]; [|done].
  destruct (truthy db_type); cbn [negb]; [|done].
  unfold pack_keyspace_id, struct_pack_Q.
  destruct (index_of keyspace_id) as [z|] eqn:Hi; [|done].
  destruct ((0 <=? z) && (z <? 2 ^ 64)) eqn:Hr; [|done].
  apply andb_true_iff in Hr as [H1%Z.leb_le H2%Z.ltb_lt].
  intros _. exists z. split; [done|].
  assert (z ≠ 0); [|lia].
  destruct keyspace_id as [|b|z'| | |]; try done; cbn [index_of truthy] in *.
  - destruct b; [|done]. by injection Hi as <-.
  - injection Hi as ->. by destruct (Z.eqb_spec z 0).
Qed.

(** ** One role at a time *)

Lemma get_shards_other_role (ks : Keyspace) (P : gmap string value)
    (role role' : string) (v : value) :
  role ≠ role' →
  get_shards (with_partitions ks (VDict (<[role' := v]> P))) (VStr role) =
  get_shards (with_partitions ks (VDict P)) (VStr role).
Proof.
  intros Hne. unfold get_shards. cbn [with_partitions partitions getitem].
  by rewrite lookup_insert_ne by congruence.
Qed.

(** X9.  What is stored for one role has no influence on another: setting or
    replacing the entry of role [role'] leaves the shards, the count, the
    names and every resolution of a different role as they were. *)
Theorem other_roles_do_not_matter (ks : Keyspace) (P : gmap string value)
    (role role' : string) (v : value) :
  role ≠ role' →
  get_shards (with_partitions ks (VDict (<[role' := v]> P))) (VStr role) =
    get_shards (with_partitions ks (VDict P)) (VStr role) ∧
  get_shard_count (with_partitions ks (VDict (<[role' := v]> P))) (VStr role) =
    get_shard_count (with_partitions ks (VDict P)) (VStr role) ∧
  get_shard_names (with_partitions ks (VDict (<[role' := v]> P))) (VStr role) =
    get_shard_names (with_partitions ks (VDict P)) (VStr role) ∧
  ∀ keyspace_id,
    keyspace_id_to_shard_name_for_db_type MAX_KEY
      (with_partitions ks (VDict (<[role' := v]> P))) keyspace_id (VStr role) =
    keyspace_id_to_shard_name_for_db_type MAX_KEY
      (with_partitions ks (VDict P)) keyspace_id (VStr role).
Proof.
  intros Hne. pose proof (get_shards_other_role ks P role role' v Hne) as H.
  unfold get_shard_count, get_shard_names, keyspace_id_to_shard_name_for_db_type.
  by rewrite H.
Qed.

(** ** A malformed record in front *)

Lemma scan_shards_app_raise (pkid : string) (refs : list ShardReference)
    (bad : value) (rest : list value) (e : exn) :
  find (contains MAX_KEY pkid) refs = None →
  getitem bad (VStr "KeyRange") = Raise e →
  scan_shards MAX_KEY pkid ((shard_reference <$> refs) ++ bad :: rest) = Raise e.
Proof.
  intros Hf Hb. induction refs as [|s0 refs IH].
  - cbn [fmap list_fmap app scan_shards]. by rewrite Hb.
  - cbn [fmap list_fmap find app] in *. cbn [scan_shards].
    change (getitem (shard_reference s0) (VStr "KeyRange"))
      with (OK (VDict {[ "Start" := VStr (Start s0); "End" := VStr (End s0) ]})).
    cbn [mbind result_bind].
    change (getitem (VDict {[ "Start" := VStr (Start s0); "End" := VStr (End s0) ]})
              (VStr "Start")) with (OK (VStr (Start s0))).
    change (getitem (VDict {[ "Start" := VStr (Start s0); "End" := VStr (End s0) ]})
              (VStr "End")) with (OK (VStr (End s0))).
    cbn [mbind result_bind].
    change (_shard_contain_kid MAX_KEY pkid (VStr (Start s0)) (VStr (End s0)))
      with (contains MAX_KEY pkid s0).
    destruct (contains MAX_KEY pkid s0); [done|]. by apply IH.
Qed.

(** X10.  A stored record without a key range that the scan meets before any
    match makes the call fail with the error of the look-up (a [KeyError] for a
    missing ['KeyRange'], a [TypeError] for a record that is no dictionary),
    even when a record further on would hold the key: unlike in [get_shards],
    the error is not caught. *)
Theorem resolve_shard_malformed_record (ks : Keyspace) (db_type : value) (k : Z)
    (refs : list ShardReference) (bad : value) (rest : list value) (e : exn) :
  0 < k < 2 ^ 64 →
  get_shards ks db_type = OK (VList ((shard_reference <$> refs) ++ bad :: rest)) →
  find (contains MAX_KEY (pack_Q k)) refs = None →
  getitem bad (VStr "KeyRange") = Raise e →
  keyspace_id_to_shard_name_for_db_type MAX_KEY ks (VInt k) db_type = Raise e.
Proof.
  intros Hk Hs Hf Hb. rewrite (resolve_shard_scan ks k db_type _ Hk Hs).
  by rewrite (scan_shards_app_raise _ _ bad rest e Hf Hb).
Qed.

(** ** Reading a keyspace *)

(** X11.  Whatever [read_keyspace] raises is an [OperationalError], or an
    exception outside [Exception] (an interrupt, an exit) that the topology
    client raised and that passes through as it is: a caller that handles
    [OperationalError] handles every failure of the load. *)
Theorem read_keyspace_raises (topo_client : TopoClient) (keyspace_name : value)
    (e : exn) :
  read_keyspace KIT_UNSET topo_client keyspace_name = Raise e →
  is_OperationalError e = true ∨
  (is_Exception e = false ∧
   topo_client (VStr "local") keyspace_name = Raise e).
Proof.
  unfold read_keyspace, read_keyspace_body.
  destruct (topo_client (VStr "local") keyspace_name) as [data|e0];
    cbn [mbind result_bind].
  - destruct (truthy data); cbn [negb is_OperationalError].
    + destruct (Keyspace_init KIT_UNSET keyspace_name data) as [?|e1] eqn:Hi; [done|].
      destruct (Keyspace_init_raises _ _ _ _ Hi) as [-> _].
      cbn [is_OperationalError is_Exception]. intros [= <-]. by left.
    + intros [= <-]. by left.
  - destruct (is_OperationalError e0) eqn:He0.
    + intros [= <-]. by left.
    + destruct (is_Exception e0) eqn:Hx.
      * intros [= <-]. by left.
      * intros [= <-]. by right.
Qed.

Lemma read_keyspace_dict (topo_client : TopoClient) (keyspace_name : value)
    (d : gmap string value) :
  topo_client (VStr "local") keyspace_name = OK (VDict d) → d ≠ ∅ →
  read_keyspace KIT_UNSET topo_client keyspace_name =
  OK (mkKeyspace keyspace_name
        (default (VDict ∅) (d !! "Partitions"))
        (default (VStr "") (d !! "ShardingColumnName"))
        (default KIT_UNSET (d !! "ShardingColumnType"))
        (default VNone (d !! "ServedFrom"))).
Proof.
  intros Ht Hd. unfold read_keyspace, read_keyspace_body. rewrite Ht.
  cbn [mbind result_bind].
  assert (truthy (VDict d) = true) as ->; [|done].
  destruct (truthy (VDict d)) eqn:H; [done|].
  apply truthy_false_iff in H as [?|[?|[?|[?|[?|[= ->]]]]]]; done.
Qed.

(** X12.  [read_keyspace] returns a keyspace exactly when the topology client
    returns a dictionary that is not empty for the cell ['local'], and the
    keyspace then carries the name asked for and the fields of that record,
    with the defaults of the constructor. *)
Theorem read_keyspace_returns (topo_client : TopoClient) (keyspace_name : value)
    (ks : Keyspace) :
  read_keyspace KIT_UNSET topo_client keyspace_name = OK ks ↔
  ∃ d, topo_client (VStr "local") keyspace_name = OK (VDict d) ∧
       d ≠ ∅ ∧
       ks = mkKeyspace keyspace_name
              (default (VDict ∅) (d !! "Partitions"))
              (default (VStr "") (d !! "ShardingColumnName"))
              (default KIT_UNSET (d !! "ShardingColumnType"))
              (default VNone (d !! "ServedFrom")).
Proof.
  unfold read_keyspace, read_keyspace_body. split.
  - destruct (topo_client (VStr "local") keyspace_name) as [data|e0];
      cbn [mbind result_bind].
    + destruct (truthy data) eqn:Ht; cbn [negb is_OperationalError]; [|done].
      destruct data as [| | | | |d];
        try (cbn [Keyspace_init get mbind result_bind is_OperationalError is_Exception];
             done).
      intros H. exists d. split; [done|]. split.
      * intros ->. by rewrite (proj2 (truthy_false_iff _)) in Ht by auto 10.
      * unfold Keyspace_init in H. cbn [get mbind result_bind mret result_ret] in H.
        by injection H as <-.
    + by destruct (is_OperationalError e0), (is_Exception e0).
  - intros (d & Ht & Hd & ->).
    apply (read_keyspace_dict topo_client keyspace_name d Ht Hd).
Qed.

(** X13.  The constructor reads four fields of the record and no other: a
    record with one more field, under any other key, gives the same
    keyspace. *)
Theorem Keyspace_init_other_fields (n : value) (d : gmap string value)
    (k : string) (v : value) :
  k ≠ "Partitions" → k ≠ "ShardingColumnName" →
  k ≠ "ShardingColumnType" → k ≠ "ServedFrom" →
  Keyspace_init KIT_UNSET n (VDict (<[k := v]> d)) =
  Keyspace_init KIT_UNSET n (VDict d).
Proof.
  intros H1 H2 H3 H4. unfold Keyspace_init. cbn [get].
  by rewrite !lookup_insert_ne by done.
Qed.

(** X14.  A key is routed by the record the topology client returned: when
    that record stores shard references for a role, the keyspace that
    [read_keyspace] builds from it resolves a key in [1, 2^64) to the first of
    these references whose range holds the packed key. *)
Theorem read_then_resolve (topo_client : TopoClient) (keyspace_name : value)
    (d P E : gmap string value) (role : string)
    (refs : list ShardReference) (k : Z) :
  topo_client (VStr "local") keyspace_name = OK (VDict d) →
  d !! "Partitions" = Some (VDict P) →
  P !! role = Some (VDict E) →
  E !! "ShardReferences" = Some (VList (shard_reference <$> refs)) →
  role ≠ "" → 0 < k < 2 ^ 64 →
  ∃ ks, read_keyspace KIT_UNSET topo_client keyspace_name = OK ks ∧
        name ks = keyspace_name ∧
        keyspace_id_to_shard_name_for_db_type MAX_KEY ks (VInt k) (VStr role) =
        match find (contains MAX_KEY (pack_Q k)) refs with
        | Some s => OK (VStr (Name s))
        | None =>
            Raise (ValueError (cannot_find_shard (VInt k)
                                 (VList (shard_reference <$> refs))))
        end.
Proof.
  intros Ht HP HE Hs Hr Hk. eexists. split; [|split].
  - apply (read_keyspace_dict topo_client keyspace_name d Ht).
    intros ->. by rewrite lookup_empty in HP.
  - done.
  - apply resolve_shard_stored; [done|].
    eapply get_shards_stored; try done. cbn [partitions]. by rewrite HP.
Qed.

(** ** Routing follows the order of the ranges *)

Lemma string_leb_trans (s1 s2 s3 : string) :
  (s1 <=? s2)%string = true → (s2 <=? s3)%string = true →
  (s1 <=? s3)%string = true.
Proof.
  rewrite !string_leb_le. intros [H| ->] [H'| <-]; auto.
  left. eauto using string_compare_lt_trans.
Qed.

Lemma string_ltb_leb_incl (s1 s2 : string) :
  (s1 <? s2)%string = true → (s1 <=? s2)%string = true.
Proof. rewrite string_ltb_lt, string_leb_le. auto. Qed.

(** Every range of a chain from [lo] starts at [lo] or above. *)
Lemma contiguous_from_starts (lo : string) (refs : list ShardReference)
    (s : ShardReference) :
  contiguous_from MAX_KEY lo refs = true → s ∈ refs →
  (lo <=? Start s)%string = true.
Proof.
  revert lo. induction refs as [|s0 refs IH]; intros lo Hc Hin.
  - by apply elem_of_nil in Hin.
  - cbn [contiguous_from] in Hc. apply andb_true_iff in Hc as [Hs Hc].
    apply String.eqb_eq in Hs. apply elem_of_cons in Hin as [->|Hin].
    + rewrite Hs. apply string_leb_refl.
    + destruct refs as [|s1 refs']; [by apply elem_of_nil in Hin|].
      apply andb_true_iff in Hc as [Hc Hrest].
      apply andb_true_iff in Hc as [Hlo _].
      eapply string_leb_trans; [by apply string_ltb_leb_incl|].
      by apply IH.
Qed.

Lemma routing_monotone (lo pk1 pk2 : string) (refs : list ShardReference)
    (s1 s2 : ShardReference) :
  contiguous_from MAX_KEY lo refs = true →
  s1 ∈ refs → s2 ∈ refs →
  contains MAX_KEY pk1 s1 = true → contains MAX_KEY pk2 s2 = true →
  (pk1 <=? pk2)%string = true →
  (Start s1 <=? Start s2)%string = true.
Proof.
  revert lo. induction refs as [|s0 refs IH]; intros lo Hc H1 H2 C1 C2 Hle.
  - by apply elem_of_nil in H1.
  - pose proof (contiguous_from_starts lo _ s2 Hc H2) as Hlo2.
    cbn [contiguous_from] in Hc. apply andb_true_iff in Hc as [Hs Hc].
    apply String.eqb_eq in Hs.
    apply elem_of_cons in H1 as [->|H1]; [by rewrite Hs|].
    destruct refs as [|s' refs']; [by apply elem_of_nil in H1|].
    apply andb_true_iff in Hc as [Hc Hrest].
    apply andb_true_iff in Hc as [_ Hmax]. apply negb_true_iff in Hmax.
    apply elem_of_cons in H2 as [->|H2]; [|by apply (IH (End s0))].
    exfalso. rewrite inside_unfold, Hmax in C2. cbn [orb] in C2.
    apply andb_true_iff in C2 as [_ C2].
    rewrite inside_unfold in C1. apply andb_true_iff in C1 as [C1 _].
    pose proof (contiguous_from_starts (End s0) _ s1 Hrest H1) as Hs1.
    pose proof (string_leb_trans _ _ _ Hs1 (string_leb_trans _ _ _ C1 Hle)) as H.
    rewrite string_ltb_leb, H in C2. done.
Qed.

(** X15.  In a well-formed partitioning the routing follows the order of the
    keys: of two keys in [0, 2^64), the smaller one is never sent to a range
    that starts after the range of the larger one. *)
Theorem resolve_shard_monotone (refs : list ShardReference) (k1 k2 : Z)
    (s1 s2 : ShardReference) :
  well_formed MAX_KEY refs = true →
  0 ≤ k1 → k1 ≤ k2 → k2 < 2 ^ 64 →
  find (contains MAX_KEY (pack_Q k1)) refs = Some s1 →
  find (contains MAX_KEY (pack_Q k2)) refs = Some s2 →
  (Start s1 <=? Start s2)%string = true.
Proof.
  intros Hwf H0 H12 H2 [I1 C1]%find_some [I2 C2]%find_some.
  apply (routing_monotone MIN_KEY (pack_Q k1) (pack_Q k2) refs s1 s2);
    try done; try by apply list_elem_of_In.
  unfold String.leb. rewrite pack_Q_compare by lia.
  destruct (Z.compare_spec k1 k2); try done. lia.
Qed.

End KeyspaceExtras.

(** ** The further properties on the sample keyspace *)

Lemma pack_keyspace_id_order_witness :
  (pack_Q 1 <? pack_Q 2)%string = true ∧ (pack_Q 2 <=? pack_Q 1)%string = false.
Proof.
  destruct (pack_keyspace_id_order 1 2 (pack_Q 1) (pack_Q 2))
    as (_ & H1 & _); [reflexivity|reflexivity|].
  destruct (pack_keyspace_id_order 2 1 (pack_Q 2) (pack_Q 1))
    as (_ & _ & H2 & _); [reflexivity|reflexivity|].
  split; [exact H1|exact H2].
Defined.

Lemma shard_contain_kid_numeric_witness :
  bound_key (String "128"%char "") = 2 ^ 63 ∧
  _shard_contain_kid "" (pack_Q (2 ^ 63 - 1)) (VStr "")
    (VStr (String "128"%char "")) = true.
Proof.
  split; [reflexivity|].
  rewrite (shard_contain_kid_numeric "" (2 ^ 63 - 1) (pack_Q (2 ^ 63 - 1)) ""
             (String "128"%char ""));
    [reflexivity|reflexivity|cbn; lia|cbn; lia].
Defined.

Lemma get_shards_failures_witness :
  get_shards (with_partitions example_keyspace VNone) (VStr "master") =
    Raise TypeError ∧
  is_KeyError TypeError = false.
Proof.
  split; [reflexivity|].
  apply (get_shards_failures (with_partitions example_keyspace VNone)
           (VStr "master") TypeError).
  reflexivity.
Defined.

Lemma shard_names_count_witness :
  ∃ ns, VList [VStr "-80"; VStr "80-"] = VList ns ∧
        get_shard_count example_keyspace (VStr "master") =
          OK (VInt (Z.of_nat (length ns))).
Proof.
  apply (shard_names_count example_keyspace (VStr "master")). reflexivity.
Defined.

Lemma shard_names_of_stored_witness :
  get_shard_count example_keyspace (VStr "master") = OK (VInt 2) ∧
  get_shard_names example_keyspace (VStr "master") =
    OK (VList [VStr "-80"; VStr "80-"]).
Proof.
  apply (shard_names_of_stored example_keyspace (VStr "master") example_refs).
  reflexivity.
Defined.

Lemma resolve_shard_sound_witness :
  ∃ pkid shards l shard kr start end_,
    pack_keyspace_id (VInt 1) = OK pkid ∧
    get_shards example_keyspace (VStr "master") = OK shards ∧
    iter shards = OK l ∧
    shard ∈ l ∧
    getitem shard (VStr "KeyRange") = OK kr ∧
    getitem kr (VStr "Start") = OK start ∧
    getitem kr (VStr "End") = OK end_ ∧
    _shard_contain_kid "" pkid start end_ = true ∧
    getitem shard (VStr "Name") = OK (VStr "-80").
Proof.
  apply (resolve_shard_sound "" example_keyspace (VInt 1) (VStr "master")).
  reflexivity.
Defined.

Lemma resolve_shard_ignores_rest_witness :
  keyspace_id_to_shard_name_for_db_type ""
    (example_keyspace_of ((shard_reference <$> example_refs) ++ [VNone]))
    (VInt 1) (VStr "master") = OK (VStr "-80") ∧
  get_shard_names
    (example_keyspace_of ((shard_reference <$> example_refs) ++ [VNone]))
    (VStr "master") = Raise TypeError.
Proof.
  split; [|reflexivity].
  apply (resolve_shard_ignores_rest "" _ (VStr "master") 1 example_refs [VNone]
           (mkShardReference "-80" "" (String "128"%char "")));
    [lia|reflexivity|reflexivity].
Defined.

Lemma resolve_shard_integer_keys_witness :
  ∃ z, index_of (VBool true) = Some z ∧ 1 ≤ z < 2 ^ 64.
Proof.
  apply (resolve_shard_integer_keys "" example_keyspace (VBool true)
           (VStr "master") (VStr "-80")).
  reflexivity.
Defined.

Lemma other_roles_do_not_matter_witness :
  get_shards
    (with_partitions example_keyspace
       (VDict (<["replica" := VNone]>
                 {[ "master" := VDict {[ "ShardReferences" := VList [] ]} ]})))
    (VStr "master") =
  get_shards
    (with_partitions example_keyspace
       (VDict {[ "master" := VDict {[ "ShardReferences" := VList [] ]} ]}))
    (VStr "master").
Proof.
  apply (other_roles_do_not_matter "" example_keyspace
           {[ "master" := VDict {[ "ShardReferences" := VList [] ]} ]}
           "master" "replica" VNone).
  discriminate.
Defined.

Lemma resolve_shard_malformed_record_witness :
  keyspace_id_to_shard_name_for_db_type ""
    (example_keyspace_of (VDict ∅ :: (shard_reference <$> example_refs)))
    (VInt 1) (VStr "master") = Raise (KeyError (VStr "KeyRange")).
Proof.
  apply (resolve_shard_malformed_record "" _ (VStr "master") 1 [] (VDict ∅)
           (shard_reference <$> example_refs));
    [lia|reflexivity|reflexivity|reflexivity].
Defined.

Lemma read_keyspace_raises_witness :
  is_OperationalError
    (OperationalError [VStr "invalid keyspace"; VStr "test_keyspace"]
       (Some (OtherException "ZooKeeperError"))) = true ∨
  (is_Exception
     (OperationalError [VStr "invalid keyspace"; VStr "test_keyspace"]
        (Some (OtherException "ZooKeeperError"))) = false ∧
   (Raise (OtherException "ZooKeeperError") : result value) =
   Raise (OperationalError [VStr "invalid keyspace"; VStr "test_keyspace"]
            (Some (OtherException "ZooKeeperError")))).
Proof.
  apply (read_keyspace_raises (VStr "")
           (fun _ _ => Raise (OtherException "ZooKeeperError"))
           (VStr "test_keyspace")).
  reflexivity.
Defined.

Lemma read_keyspace_returns_witness :
  read_keyspace (VStr "") example_topo_client (VStr "test_keyspace") =
  OK (mkKeyspace (VStr "test_keyspace")
        (default (VDict ∅) (example_record !! "Partitions"))
        (VStr "keyspace_id") (VStr "") VNone).
Proof.
  apply (read_keyspace_returns (VStr "") example_topo_client (VStr "test_keyspace")).
  exists example_record. split; [reflexivity|]. split; [|reflexivity].
  intros H. apply (f_equal (fun m => m !! "Partitions")) in H. discriminate H.
Defined.

Lemma Keyspace_init_other_fields_witness :
  Keyspace_init (VStr "") (VStr "test_keyspace")
    (VDict (<["Cells" := VList [VStr "test_nj"]]> example_record)) =
  Keyspace_init (VStr "") (VStr "test_keyspace") (VDict example_record).
Proof.
  apply (Keyspace_init_other_fields (VStr "") (VStr "test_keyspace")
           example_record "Cells"); discriminate.
Defined.

Lemma read_then_resolve_witness :
  ∃ ks, read_keyspace (VStr "") example_topo_client (VStr "test_keyspace") = OK ks ∧
        name ks = VStr "test_keyspace" ∧
        keyspace_id_to_shard_name_for_db_type "" ks (VInt (2 ^ 63)) (VStr "master") =
        OK (VStr "80-").
Proof.
  destruct (read_then_resolve "" (VStr "") example_topo_client (VStr "test_keyspace")
              example_record
              {[ "master" :=
                   VDict {[ "ShardReferences" :=
                              VList (shard_reference <$> example_refs) ]} ]}
              {[ "ShardReferences" := VList (shard_reference <$> example_refs) ]}
              "master" example_refs (2 ^ 63))
    as (ks & H1 & H2 & H3);
    [reflexivity|reflexivity|reflexivity|reflexivity|discriminate|lia|].
  exists ks. split; [exact H1|]. split; [exact H2|]. rewrite H3. reflexivity.
Defined.

Lemma resolve_shard_monotone_witness :
  ("" <=? String "128"%char "")%string = true.
Proof.
  apply (resolve_shard_monotone "" example_refs 1 (2 ^ 63)
           (mkShardReference "-80" "" (String "128"%char ""))
           (mkShardReference "80-" (String "128"%char "") ""));
    [reflexivity|lia|lia|lia|reflexivity|reflexivity].
Defined.
